(** * Quasar CLI: [quasar upgrade] and the extension resolver

    A shallow embedding of two source files:
    - [cli/bin/quasar-upgrade]: [versionRegex], [getLatestVersion] and
      [upgradeQuasar];
    - [app-vite/lib/helpers/resolve-extension.js]: [resolveExtension].

    A JavaScript string is modelled as the [string] of the bytes of its
    UTF-8 encoding, so that a character of the ASCII range is one [ascii]
    and any other character is a run of bytes above 127.  The patterns and
    the literals of the source are all ASCII, and matching, comparing and
    concatenating read the same on bytes as on UTF-16 code units; the one
    operation that tells them apart, indexing a string, is interpreted on
    ASCII only (see [index_last]).  JSON payloads are modelled as the
    inductive type [value], regular
    expressions as a syntax tree run by a backtracking matcher, and the
    external world (child processes, the file system, the console) as an
    abstract state threaded through a small state-and-exception monad that
    also records a trace of the effects performed. *)

From Stdlib Require Import String Ascii List Bool Arith Lia.
Import ListNotations.
Open Scope string_scope.

(** ** Strings *)

Definition is_digit (c : ascii) : bool :=
  let n := nat_of_ascii c in ((48 <=? n)%nat && (n <=? 57)%nat).

(** [span_digits s] splits [s] into its longest prefix of digits and the
    rest. *)
Fixpoint span_digits (s : string) : string * string :=
  match s with
  | String c s' =>
      if is_digit c
      then let (d, r) := span_digits s' in (String c d, r)
      else (EmptyString, s)
  | EmptyString => (EmptyString, EmptyString)
  end.

Fixpoint all_digits (s : string) : bool :=
  match s with
  | String c s' => is_digit c && all_digits s'
  | EmptyString => true
  end.

(** A non-empty run of digits: what [\d+] matches in full. *)
Definition digits (s : string) : bool :=
  match s with
  | EmptyString => false
  | _ => all_digits s
  end.

Definition starts_with_digit (s : string) : bool :=
  match s with
  | String c _ => is_digit c
  | EmptyString => false
  end.

(** [String.prototype.startsWith]. *)
Definition startsWith (s p : string) : bool := prefix p s.

(** A byte that is a whole character: the ASCII range. *)
Definition is_ascii (c : ascii) : bool := (nat_of_ascii c <? 128)%nat.

(** The last byte of a string. *)
Fixpoint last_byte (s : string) : option ascii :=
  match s with
  | EmptyString => None
  | String c EmptyString => Some c
  | String _ s' => last_byte s'
  end.

(** [Array.prototype.join]. *)
Fixpoint join (sep : string) (l : list string) : string :=
  match l with
  | [] => ""
  | [x] => x
  | x :: rest => x ++ sep ++ join sep rest
  end.

(** ** Regular expressions

    The fragment of the JavaScript syntax that the source uses: literal
    characters, [\d], the anchors [^] and [$], sequence, alternation, the
    greedy [?], the greedy [+] on a single-character matcher, and capturing
    groups (numbered by their opening parenthesis). *)

Inductive atom : Type :=
| AChar (c : ascii)
| ADigit.

Inductive regex : Type :=
| REps
| RAtom (a : atom)
| RBol
| REol
| RSeq (r1 r2 : regex)
| RAlt (r1 r2 : regex)
| ROpt (r : regex)
| RPlus (a : atom)
| RGroup (i : nat) (r : regex).

Definition captures := list (nat * string).

Fixpoint get_cap (i : nat) (cs : captures) : option string :=
  match cs with
  | [] => None
  | (j, s) :: rest => if (i =? j)%nat then Some s else get_cap i rest
  end.

Record mstate : Type := MState {
  pos : nat;          (* index of the next character in the input *)
  rest : string;      (* the input from [pos] on *)
  caps : captures
}.

Definition atom_matches (a : atom) (c : ascii) : bool :=
  match a with
  | AChar d => Ascii.eqb c d
  | ADigit => is_digit c
  end.

Definition set_cap (i : nat) (from to : mstate) : mstate :=
  MState (pos to) (rest to)
         ((i, substring 0 (pos to - pos from) (rest from)) :: caps to).

(** Greedy repetition of a single-character matcher, zero or more times:
    the longest run is tried first, then shorter ones. *)
Fixpoint rstar (a : atom) (p : nat) (s : string) (cs : captures)
         (k : mstate -> option captures) : option captures :=
  match s with
  | String c s' =>
      if atom_matches a c
      then match rstar a (S p) s' cs k with
           | Some r => Some r
           | None => k (MState p s cs)
           end
      else k (MState p s cs)
  | EmptyString => k (MState p s cs)
  end.

(** The backtracking matcher, in continuation-passing style: [k] is what
    remains to be matched after [r]. *)
Fixpoint rmatch (r : regex) (st : mstate) (k : mstate -> option captures)
  : option captures :=
  match r with
  | REps => k st
  | RAtom a =>
      match rest st with
      | String c s' =>
          if atom_matches a c then k (MState (S (pos st)) s' (caps st))
          else None
      | EmptyString => None
      end
  | RBol => if (pos st =? 0)%nat then k st else None
  | REol => match rest st with EmptyString => k st | _ => None end
  | RSeq r1 r2 => rmatch r1 st (fun st1 => rmatch r2 st1 k)
  | RAlt r1 r2 =>
      match rmatch r1 st k with
      | Some cs => Some cs
      | None => rmatch r2 st k
      end
  | ROpt r1 =>
      match rmatch r1 st k with
      | Some cs => Some cs
      | None => k st
      end
  | RPlus a =>
      match rest st with
      | String c s' =>
          if atom_matches a c then rstar a (S (pos st)) s' (caps st) k
          else None
      | EmptyString => None
      end
  | RGroup i r1 => rmatch r1 st (fun st1 => k (set_cap i st st1))
  end.

(** The continuation that ends a match. *)
Definition done (st : mstate) : option captures := Some (caps st).

(** A match is searched from every start index, left to right. *)
Fixpoint search (r : regex) (p : nat) (s : string) : option captures :=
  match rmatch r (MState p s []) done with
  | Some cs => Some cs
  | None =>
      match s with
      | String _ s' => search r (S p) s'
      | EmptyString => None
      end
  end.

(** [String.prototype.match] with a regex that has no [g] flag: the
    captures of the first match, [None] for JavaScript's [null]. *)
Definition js_match (s : string) (r : regex) : option captures :=
  search r 0 s.

Definition succeeds (o : option captures) : bool :=
  match o with
  | Some _ => true
  | None => false
  end.

(** [RegExp.prototype.test]. *)
Definition regex_test (r : regex) (s : string) : bool :=
  succeeds (search r 0 s).

(** A pattern fragment without metacharacters. *)
Fixpoint lit (s : string) : regex :=
  match s with
  | EmptyString => REps
  | String c s' => RSeq (RAtom (AChar c)) (lit s')
  end.

Fixpoint rseq (rs : list regex) : regex :=
  match rs with
  | [] => REps
  | [r] => r
  | r :: rest => RSeq r (rseq rest)
  end.

Definition dot : regex := RAtom (AChar ".").
Definition dash : regex := RAtom (AChar "-").

(** [(alpha|beta|rc)] without its parentheses. *)
Definition tags : regex := RAlt (lit "alpha") (RAlt (lit "beta") (lit "rc")).

(** [const versionRegex = /^(\d+)\.[\d]+\.[\d]+-?(alpha|beta|rc)?/] *)
Definition versionRegex : regex :=
  rseq [RBol; RGroup 1 (RPlus ADigit); dot; RPlus ADigit; dot; RPlus ADigit;
       ROpt dash; ROpt (RGroup 2 tags)].

(** [/^\d/] *)
Definition pinnedRegex : regex := rseq [RBol; RAtom ADigit].

(** ** JavaScript values

    What [JSON.parse] can return, and [undefined].  A number carries its
    [ToString] rendering, which is all the source ever asks of one. *)

Set Warnings "-register-all".

Inductive value : Type :=
| VUndefined
| VNull
| VBool (b : bool)
| VNum (repr : string)
| VStr (s : string)
| VArr (items : list value)
| VObj (fields : list (string * value)).

Inductive exn : Type :=
| TypeError          (* raised by the language *)
| ExternalFailure.   (* an external collaborator did not return *)

Inductive result (A : Type) : Type :=
| Returned (a : A)
| Thrown (e : exn).
Arguments Returned {A} a.
Arguments Thrown {A} e.

(** The abstract operation ToString, as used by template literals and by
    [RegExp.prototype.test] on its argument. *)
Fixpoint ToString (v : value) : string :=
  match v with
  | VUndefined => "undefined"
  | VNull => "null"
  | VBool true => "true"
  | VBool false => "false"
  | VNum r => r
  | VStr s => s
  | VArr l =>
      join ","
        ((fix items (l : list value) : list string :=
            match l with
            | [] => []
            | x :: t =>
                match x with
                | VUndefined | VNull => ""
                | _ => ToString x
                end :: items t
            end) l)
  | VObj _ => "[object Object]"
  end.

(** [a === b] where at least one side is a primitive (two objects are
    compared by identity, and the source never compares two). *)
Definition strict_eq (a b : value) : bool :=
  match a, b with
  | VUndefined, VUndefined => true
  | VNull, VNull => true
  | VBool x, VBool y => Bool.eqb x y
  | VNum x, VNum y => String.eqb x y
  | VStr x, VStr y => String.eqb x y
  | _, _ => false
  end.

(** Truthiness of a string or [undefined]. *)
Definition truthy (o : option string) : bool :=
  match o with
  | Some s => negb (String.eqb s "")
  | None => false
  end.

Fixpoint assoc {A : Type} (k : string) (l : list (string * A)) : option A :=
  match l with
  | [] => None
  | (k', v) :: rest => if String.eqb k k' then Some v else assoc k rest
  end.

(** [v.name] for a property name that no built-in prototype defines (the
    source reads [type] and [data]). *)
Definition get_field (v : value) (name : string) : result value :=
  match v with
  | VUndefined | VNull => Thrown TypeError
  | VObj fs =>
      Returned (match assoc name fs with Some x => x | None => VUndefined end)
  | _ => Returned VUndefined
  end.

(** [v.filter(f)]: only arrays have a callable [filter]. *)
Definition js_filter (v : value) (f : value -> bool) : result value :=
  match v with
  | VArr l => Returned (VArr (filter f l))
  | _ => Thrown TypeError
  end.

(** ** The command line and the manifest *)

(** [argv], as parsed by minimist with the four boolean flags. *)
Record Argv : Type := {
  install : bool;
  prerelease : bool;
  major : bool
}.

(** [package.json]: each group is absent or lists its entries in the order
    [Object.keys] enumerates them. *)
Record manifest : Type := {
  pkg_dependencies : option (list (string * string));
  pkg_devDependencies : option (list (string * string))
}.

(** The manifest of an installed package, as far as the source reads it. *)
Record package_json : Type := { version : string }.

(** ** Effects *)

Inductive event : Type :=
| ConsoleLog (line : string)                    (* console.log(line) *)
| LoggerLog (msg : string)                      (* log(msg) of lib/logger *)
| ExecSync (cmd : string)                       (* child_process.execSync *)
| RemoveSync (segments : list string)           (* removeSync(path.join(...segments)) *)
| Spawn (cmd : string) (params : list string) (cwd : string).  (* lib/spawn *)

(** The external collaborators.  [execSync] answers [None] when it throws;
    [removeSync] and [spawn] answer [false] when they do not return.
    [object_index_last] stands for [o[o.length - 1]] on a plain object [o],
    which depends on number conversions that are not modelled.
    [string_index_last] stands for [s[s.length - 1]] on a string [s] that
    ends outside ASCII: its last UTF-16 code unit, which the bytes of [s]
    do not show as such. *)
Record Env : Type := {
  World : Type;
  node_packager : string -> string;
  getPackageJson : string -> World -> option package_json;
  execSync : string -> World -> World * option string;
  JSON_parse : string -> option value;
  removeSync : list string -> World -> World * bool;
  spawn : string -> list string -> string -> World -> World * bool;
  green : string -> string;
  red : string -> string;
  object_index_last : list (string * value) -> result value;
  string_index_last : string -> value
}.

(** A computation reads and updates the world, emits events, and returns
    or throws. *)
Definition M (E : Env) (A : Type) : Type :=
  World E -> World E * list event * result A.

Definition ret {E : Env} {A : Type} (a : A) : M E A :=
  fun w => (w, [], Returned a).

Definition throw {E : Env} {A : Type} (e : exn) : M E A :=
  fun w => (w, [], Thrown e).

Definition bind {E : Env} {A B : Type} (m : M E A) (f : A -> M E B) : M E B :=
  fun w =>
    match m w with
    | (w1, t1, Returned a) =>
        match f a w1 with
        | (w2, t2, r) => (w2, (t1 ++ t2)%list, r)
        end
    | (w1, t1, Thrown e) => (w1, t1, Thrown e)
    end.

Notation "x <- m ;; k" := (bind m (fun x => k))
  (at level 61, m at next level, right associativity).
Notation "m ;; k" := (bind m (fun _ => k))
  (at level 61, right associativity).

Definition lift {E : Env} {A : Type} (r : result A) : M E A :=
  fun w => (w, [], r).

Definition console_log {E : Env} (line : string) : M E unit :=
  fun w => (w, [ConsoleLog line], Returned tt).

Definition logger_log {E : Env} (msg : string) : M E unit :=
  fun w => (w, [LoggerLog msg], Returned tt).

Definition do_removeSync {E : Env} (segments : list string) : M E unit :=
  fun w =>
    match removeSync E segments w with
    | (w1, true) => (w1, [RemoveSync segments], Returned tt)
    | (w1, false) => (w1, [RemoveSync segments], Thrown ExternalFailure)
    end.

Definition do_spawn {E : Env} (cmd : string) (params : list string)
           (cwd : string) : M E unit :=
  fun w =>
    match spawn E cmd params cwd w with
    | (w1, true) => (w1, [Spawn cmd params cwd], Returned tt)
    | (w1, false) => (w1, [Spawn cmd params cwd], Thrown ExternalFailure)
    end.

Fixpoint foldM {E : Env} {A S : Type} (f : A -> S -> M E S) (l : list A)
         (s : S) : M E S :=
  match l with
  | [] => ret s
  | x :: rest => s1 <- f x s ;; foldM f rest s1
  end.

Definition nl : string := String "010"%char "".

(** ** [getLatestVersion] *)

(** [versions[versions.length - 1]].  On a string this is its last UTF-16
    code unit: the last byte when that byte is ASCII, [undefined] on the
    empty string. *)
Definition index_last (E : Env) (versions : value) : result value :=
  match versions with
  | VUndefined | VNull => Thrown TypeError
  | VBool _ | VNum _ => Returned VUndefined
  | VStr s =>
      Returned (match last_byte s with
                | Some c => if is_ascii c then VStr (String c "")
                            else string_index_last E s
                | None => VUndefined
                end)
  | VArr l => Returned (last l VUndefined)
  | VObj fs => object_index_last E fs
  end.

(** The interpolation of a captured group into a template literal. *)
Definition interpolate (o : option string) : string :=
  match o with
  | Some s => s
  | None => "undefined"
  end.

(** Lines 99 to 104: the regex that candidates are tested against.
    [major] is spliced into the pattern as it is; it comes from the group
    [(\d+)] of [versionRegex], so it holds digits only and stands for
    itself.  Groups are numbered from left to right. *)
Definition candidateRegex (argv : Argv) (major_ : option string)
           (prerelease_ : option string) : regex :=
  let majorSyntax :=
    if major argv then RGroup 1 (RPlus ADigit) else lit (interpolate major_) in
  let g := if major argv then 1 else 0 in
  if truthy prerelease_ || prerelease argv
  then rseq [RBol; majorSyntax; dot; RGroup (g + 1) (RPlus ADigit); dot;
            RGroup (g + 2) (RPlus ADigit); ROpt dash;
            ROpt (RGroup (g + 3) tags)]
  else rseq [RBol; majorSyntax; dot; RGroup (g + 1) (RPlus ADigit); dot;
            RGroup (g + 2) (RPlus ADigit); REol].

(** Lines 94 to 108 of [getLatestVersion], the part that the
    specification calls selectLatest: from the registry's list and the
    installed version ([None] for [null]) to the version to offer. *)
Definition selectLatest (E : Env) (argv : Argv) (versions : value)
           (curVersion : option string) : result value :=
  match curVersion with
  | None => index_last E versions
  | Some cur =>
      match js_match cur versionRegex with
      | None => Thrown TypeError   (* destructuring [null] *)
      | Some m =>
          let regex := candidateRegex argv (get_cap 1 m) (get_cap 2 m) in
          match js_filter versions
                  (fun version => regex_test regex (ToString version)) with
          | Thrown e => Thrown e
          | Returned versions' => index_last E versions'
          end
      end
  end.

Definition info_command (packager packageName : string) : string :=
  packager ++ " info " ++ packageName ++ " versions --json".

Definition getLatestVersion (E : Env) (argv : Argv)
           (packager packageName : string) (curVersion : option string)
  : M E value :=
  fun w =>
    let cmd := info_command packager packageName in
    let (w1, out) := execSync E cmd w in
    let parsed :=
      match out with
      | Some o => JSON_parse E o
      | None => None
      end in
    (w1, [ExecSync cmd],
     match parsed with
     | None => Returned VNull                       (* catch (err) *)
     | Some versions =>
         match get_field versions "type" with
         | Thrown e => Thrown e
         | Returned ty =>
             if strict_eq ty (VStr "error") then Returned VNull
             else
               match (if String.eqb packager "yarn"
                      then get_field versions "data"
                      else Returned versions) with
               | Thrown e => Thrown e
               | Returned versions' => selectLatest E argv versions' curVersion
               end
         end
     end).

(** ** [upgradeQuasar] *)

Inductive dep_type : Type := dependencies | devDependencies.

Record plan_entry : Type := {
  packageName : string;
  latestVersion : value
}.

(** The variables that the scan updates: [deps], [updateAvailable] and
    [removeDeprecatedAppPkg]. *)
Record scan_state : Type := {
  deps_dependencies : list plan_entry;
  deps_devDependencies : list plan_entry;
  updateAvailable : bool;
  removeDeprecatedAppPkg : bool
}.

Definition deps (st : scan_state) (type : dep_type) : list plan_entry :=
  match type with
  | dependencies => deps_dependencies st
  | devDependencies => deps_devDependencies st
  end.

Definition push (st : scan_state) (type : dep_type) (e : plan_entry)
  : scan_state :=
  match type with
  | dependencies =>
      {| deps_dependencies := (deps_dependencies st ++ [e])%list;
         deps_devDependencies := deps_devDependencies st;
         updateAvailable := true;
         removeDeprecatedAppPkg := removeDeprecatedAppPkg st |}
  | devDependencies =>
      {| deps_dependencies := deps_dependencies st;
         deps_devDependencies := (deps_devDependencies st ++ [e])%list;
         updateAvailable := true;
         removeDeprecatedAppPkg := removeDeprecatedAppPkg st |}
  end.

Definition set_remove (st : scan_state) : scan_state :=
  {| deps_dependencies := deps_dependencies st;
     deps_devDependencies := deps_devDependencies st;
     updateAvailable := updateAvailable st;
     removeDeprecatedAppPkg := true |}.

Definition initial_state : scan_state :=
  {| deps_dependencies := [];
     deps_devDependencies := [];
     updateAvailable := false;
     removeDeprecatedAppPkg := false |}.

Definition pkg_group (pkg : manifest) (type : dep_type)
  : option (list (string * string)) :=
  match type with
  | dependencies => pkg_dependencies pkg
  | devDependencies => pkg_devDependencies pkg
  end.

(** [Object.keys(pkg[type] || {})] *)
Definition group_keys (pkg : manifest) (type : dep_type) : list string :=
  match pkg_group pkg type with
  | Some entries => map fst entries
  | None => []
  end.

Definition is_quasar_package (name : string) : bool :=
  String.eqb name "quasar" || String.eqb name "eslint-plugin-quasar"
  || startsWith name "@quasar/".

(** [packageName === '@quasar/app' && curVersion && curVersion.startsWith('3.')] *)
Definition is_deprecated_app (name : string) (curVersion : option string)
  : bool :=
  String.eqb name "@quasar/app" && truthy curVersion
  && match curVersion with
     | Some v => startsWith v "3."
     | None => false
     end.

Definition arrow : string := " → ".

Definition skipping_line (E : Env) (name current : string) : string :=
  " " ++ green E name ++ ": " ++ current ++ arrow ++ red E "Skipping!".

Definition skipping_reason : string :=
  "   (⚠️  NPM server returned an error, so we cannot detect latest version)".

Definition update_line (E : Env) (name current : string) (latest : value)
  : string :=
  " " ++ green E name ++ ": " ++ current ++ arrow ++ ToString latest.

Definition value_of_version (curVersion : option string) : value :=
  match curVersion with
  | Some v => VStr v
  | None => VNull
  end.

(** Lines 145 to 164: query the registry for [packageName] and report. *)
Definition report_package (E : Env) (argv : Argv) (packager : string)
           (type : dep_type) (packageName : string)
           (curVersion : option string) (st : scan_state) : M E scan_state :=
  latestVersion <- getLatestVersion E argv packager packageName curVersion ;;
  let current :=
    match curVersion with
    | None => red E "Missing!"
    | Some v => v
    end in
  if strict_eq latestVersion VNull
  then
    console_log (skipping_line E packageName current) ;;
    console_log skipping_reason ;;
    ret st
  else if negb (strict_eq (value_of_version curVersion) latestVersion)
  then
    let st' := push st type {| packageName := packageName;
                               latestVersion := latestVersion |} in
    console_log (update_line E packageName current latestVersion) ;;
    ret st'
  else ret st.

(** One iteration of the inner loop, lines 129 to 164. *)
Definition scan_package (E : Env) (argv : Argv) (packager : string)
           (type : dep_type) (name : string) (st : scan_state)
  : M E scan_state :=
  if negb (is_quasar_package name) then ret st
  else
    fun w =>
      let json := getPackageJson E name w in
      let curVersion :=
        match json with
        | Some j => Some (version j)
        | None => None
        end in
      if is_deprecated_app name curVersion
      then report_package E argv packager type "@quasar/app-webpack"
                          curVersion (set_remove st) w
      else report_package E argv packager type name curVersion st w.

(** The two nested loops, lines 127 to 166. *)
Definition scan_group (E : Env) (argv : Argv) (packager : string)
           (pkg : manifest) (type : dep_type) (st : scan_state)
  : M E scan_state :=
  foldM (scan_package E argv packager type) (group_keys pkg type) st.

Definition scan (E : Env) (argv : Argv) (packager : string) (pkg : manifest)
  : M E scan_state :=
  foldM (scan_group E argv packager pkg) [dependencies; devDependencies]
        initial_state.

Definition dquote : string := String "034"%char "".

Definition up_to_date_line : string :=
  "  Congrats! All Quasar packages are up to date." ++ nl.

(** The parameters of the command that the preview suggests. *)
Definition rerun_params (argv : Argv) : list string :=
  (["-i"] ++ (if prerelease argv then ["-p"] else [])
          ++ (if major argv then ["-m"] else []))%list.

Definition release_notes_line (E : Env) : string :=
  " See " ++ green E "https://quasar.dev/start/release-notes"
          ++ " for release notes.".

Definition rerun_line (argv : Argv) : string :=
  " Run " ++ dquote ++ "quasar upgrade " ++ join " " (rerun_params argv)
          ++ dquote ++ " to do the actual upgrade.".

Definition uninstall_params (packager : string) : list string :=
  if String.eqb packager "yarn"
  then ["remove"; "@quasar/app"]
  else ["uninstall"; "--save--dev"; "@quasar/app"].

Definition install_params (packager : string) (type : dep_type)
  : list string :=
  if String.eqb packager "yarn"
  then match type with
       | devDependencies => ["add"; "--dev"]
       | dependencies => ["add"]
       end
  else ["install";
        "--save" ++ match type with
                    | devDependencies => "--dev"
                    | dependencies => ""
                    end].

(** [group[name]] when it is truthy. *)
Definition truthy_entry (group : list (string * string)) (name : string)
  : option string :=
  match assoc name group with
  | Some r => if truthy (Some r) then Some r else None
  | None => None
  end.

(** [pkg.dependencies[name] || pkg.devDependencies[name] || '^']: reading a
    property of an absent group throws. *)
Definition range_or_fallback (pkg : manifest) (name : string)
  : result string :=
  match pkg_dependencies pkg with
  | None => Thrown TypeError
  | Some ds =>
      match truthy_entry ds name with
      | Some r => Returned r
      | None =>
          match pkg_devDependencies pkg with
          | None => Thrown TypeError
          | Some dd =>
              Returned (match truthy_entry dd name with
                        | Some r => r
                        | None => "^"
                        end)
          end
      end
  end.

Definition install_arg (pinned : bool) (dep : plan_entry) : string :=
  packageName dep ++ "@" ++ (if pinned then "" else "^")
              ++ ToString (latestVersion dep).

(** The body of [deps[type].forEach], lines 213 to 223; [params] is the
    array that it extends. *)
Definition add_dep (E : Env) (root : string) (pkg : manifest)
           (dep : plan_entry) (params : list string) : M E (list string) :=
  do_removeSync [root; "node_modules"; packageName dep] ;;
  range <- lift (range_or_fallback pkg (packageName dep)) ;;
  let pinned := regex_test pinnedRegex range in
  ret (params ++ [install_arg pinned dep])%list.

(** One iteration of the second loop, lines 204 to 227. *)
Definition install_group (E : Env) (root packager : string) (pkg : manifest)
           (st : scan_state) (type : dep_type) (_ : unit) : M E unit :=
  match deps st type with
  | [] => ret tt
  | _ =>
      params <- foldM (add_dep E root pkg) (deps st type)
                      (install_params packager type) ;;
      console_log "" ;;
      do_spawn packager params root
  end.

(** Lines 168 to 231: what follows the scan. *)
Definition finish (E : Env) (argv : Argv) (root packager : string)
           (pkg : manifest) (st : scan_state) : M E unit :=
  if negb (updateAvailable st)
  then console_log up_to_date_line
  else if negb (install argv)
  then
    console_log "" ;;
    console_log (release_notes_line E) ;;
    console_log (rerun_line argv) ;;
    console_log ""
  else
    (if removeDeprecatedAppPkg st
     then
       do_removeSync [root; "node_modules/@quasar/app"] ;;
       console_log "" ;;
       do_spawn packager (uninstall_params packager) root
     else ret tt) ;;
    foldM (install_group E root packager pkg st)
          [dependencies; devDependencies] tt ;;
    console_log "" ;;
    logger_log ("Successfully upgraded Quasar packages." ++ nl).

Definition upgradeQuasar (E : Env) (argv : Argv) (root : string)
           (pkg : manifest) : M E unit :=
  let packager := node_packager E root in
  console_log "" ;;
  logger_log ("Gathering information with " ++ packager ++ "...") ;;
  console_log "" ;;
  st <- scan E argv packager pkg ;;
  finish E argv root packager pkg st.

(** ** [resolveExtension] *)

Definition extensions : list string := [""; ".js"; ".ts"; ".jsx"; ".tsx"].

(** The loop of [resolveExtension] over a list of extensions; [None] is
    JavaScript's [undefined], returned when the loop ends. *)
Fixpoint resolve_in (existsSync : string -> bool) (exts : list string)
         (file : string) : option string :=
  match exts with
  | [] => None
  | ext :: exts' =>
      let entry := file ++ ext in
      if Bool.eqb (existsSync entry) true then Some entry
      else resolve_in existsSync exts' file
  end.

Definition resolveExtension (existsSync : string -> bool) (file : string)
  : option string :=
  resolve_in existsSync extensions file.

(** ** Reference definitions

    What the specification says of version strings, written without the
    regex machinery, to compare the matcher with. *)

(** [v] is [a.b.c] followed by [suffix], the three components being
    non-empty runs of digits and the first one being [m] when a major is
    imposed. *)
Definition version_form (fixed : option string) (v suffix : string) : Prop :=
  exists a b c,
    v = a ++ "." ++ b ++ "." ++ c ++ suffix
    /\ digits a = true /\ digits b = true /\ digits c = true
    /\ (forall m, fixed = Some m -> a = m).

(** An optional dash followed by an optional tag among alpha, beta, rc. *)
Definition tag_suffixes : list string :=
  [""; "alpha"; "beta"; "rc"; "-"; "-alpha"; "-beta"; "-rc"].

Definition empty (s : string) : bool :=
  match s with
  | EmptyString => true
  | _ => false
  end.

(** [strip_prefix p s] is what follows [p] in [s]. *)
Fixpoint strip_prefix (p s : string) : option string :=
  match p, s with
  | EmptyString, _ => Some s
  | String c p', String d s' =>
      if Ascii.eqb d c then strip_prefix p' s' else None
  | String _ _, EmptyString => None
  end.

(** A dot and a non-empty run of digits, the longest there is. *)
Definition split_component (s : string) : option (string * string) :=
  match s with
  | String "." s' =>
      let (d, r) := span_digits s' in
      if empty d then None else Some (d, r)
  | _ => None
  end.

(** Two such components and what follows them. *)
Definition split_tail (s : string) : option (string * string * string) :=
  match split_component s with
  | Some (b, r2) =>
      match split_component r2 with
      | Some (c, r3) => Some (b, c, r3)
      | None => None
      end
  | None => None
  end.

(** [split_version v] reads [v] as [a.b.c] followed by a suffix: the three
    components (each the longest run of digits) and the suffix. *)
Definition split_version (v : string)
  : option (string * string * string * string) :=
  let (a, r1) := span_digits v in
  if empty a then None
  else
    match split_tail r1 with
    | Some (b, c, r3) => Some (a, b, c, r3)
    | None => None
    end.

Definition major_ok (fixed : option string) (a : string) : bool :=
  match fixed with
  | Some m => String.eqb a m
  | None => true
  end.

(** The matching rule as a function: [exact] asks that nothing follows the
    patch number. *)
Definition accepts (fixed : option string) (exact : bool) (v : string)
  : bool :=
  match split_version v with
  | Some (a, _, _, suffix) =>
      major_ok fixed a && (if exact then empty suffix else true)
  | None => false
  end.

(** The rule with a suffix restricted to an optional dash and an optional
    tag. *)
Definition accepts_tagged (fixed : option string) (v : string) : bool :=
  match split_version v with
  | Some (a, _, _, suffix) =>
      major_ok fixed a && existsb (String.eqb suffix) tag_suffixes
  | None => false
  end.

(** The tag that [s] starts with, if any. *)
Definition tag_of (s : string) : option string :=
  if prefix "alpha" s then Some "alpha"
  else if prefix "beta" s then Some "beta"
  else if prefix "rc" s then Some "rc"
  else None.

Definition skip_dash (s : string) : string :=
  match s with
  | String "-" s' => s'
  | _ => s
  end.

(** The major component and the tag of a version string, read as
    [major.minor.patch], an optional dash, an optional tag. *)
Definition parse_version (s : string) : option (string * option string) :=
  match split_version s with
  | Some (a, _, _, suffix) => Some (a, tag_of (skip_dash suffix))
  | None => None
  end.

(** The manifest entry of a package: its range in [dependencies] or else in
    [devDependencies], an empty range counting as none. *)
Definition manifest_entry (pkg : manifest) (name : string) : option string :=
  match match pkg_dependencies pkg with
        | Some ds => truthy_entry ds name
        | None => None
        end with
  | Some r => Some r
  | None =>
      match pkg_devDependencies pkg with
      | Some dd => truthy_entry dd name
      | None => None
      end
  end.

(** The install argument that keeps the pinning style of the manifest. *)
Definition pinning_arg (pkg : manifest) (dep : plan_entry) : string :=
  match manifest_entry pkg (packageName dep) with
  | Some r =>
      if starts_with_digit r
      then packageName dep ++ "@" ++ ToString (latestVersion dep)
      else packageName dep ++ "@^" ++ ToString (latestVersion dep)
  | None => packageName dep ++ "@^" ++ ToString (latestVersion dep)
  end.

(** [sub] occurs in [s]. *)
Definition contains (s sub : string) : Prop :=
  exists before after, s = before ++ sub ++ after.

Definition is_install_or_uninstall (e : event) : bool :=
  match e with
  | Spawn _ _ _ => true
  | _ => false
  end.

Definition is_deletion (e : event) : bool :=
  match e with
  | RemoveSync _ => true
  | _ => false
  end.

(** The candidates of [resolveExtension], in the order they are probed. *)
Definition candidates (p : string) : list string :=
  [p; p ++ ".js"; p ++ ".ts"; p ++ ".jsx"; p ++ ".tsx"].

(** [i] is the first index of [l] whose element satisfies [f]. *)
Definition first_at {A : Type} (f : A -> bool) (l : list A) (i : nat) (x : A)
  : Prop :=
  nth_error l i = Some x /\ f x = true
  /\ forall j y, j < i -> nth_error l j = Some y -> f y = false.

(** ** Vocabulary of the proofs *)

(** A continuation that fails whenever a digit comes next: a greedy [\d+]
    before it can only stop at the end of the run. *)
Definition forced (k : mstate -> option captures) : Prop :=
  forall st, starts_with_digit (rest st) = true -> k st = None.

(** A continuation that never fails: a greedy [\d+] before it takes the
    whole run. *)
Definition total (k : mstate -> option captures) : Prop :=
  forall st, k st <> None.

Definition grp (g : option nat) (r : regex) : regex :=
  match g with
  | Some i => RGroup i r
  | None => r
  end.

Definition cap (g : option nat) (d : string) (cs : captures) : captures :=
  match g with
  | Some i => (i, d) :: cs
  | None => cs
  end.

(** [^\d+\.\d+\.\d+] followed by [tail], each run of digits possibly in
    a group. *)
Definition version_pattern (g1 g2 g3 : option nat) (tail : regex) : regex :=
  RSeq RBol (RSeq (grp g1 (RPlus ADigit))
    (RSeq dot (RSeq (grp g2 (RPlus ADigit))
      (RSeq dot (RSeq (grp g3 (RPlus ADigit)) tail))))).

(** [-?(alpha|beta|rc)?] *)
Definition tag_tail (i : nat) : regex :=
  RSeq (ROpt dash) (ROpt (RGroup i tags)).

(** Whether [tail] matches depends on the remaining input only, through
    [f]. *)
Definition suffix_test (tail : regex) (f : string -> bool) : Prop :=
  forall st, succeeds (rmatch tail st done) = f (rest st).

(** Events that neither delete files nor run an install or uninstall. *)
Definition quiet (e : event) : Prop :=
  is_install_or_uninstall e = false /\ is_deletion e = false.

(** A property of the scan state that every update of the scan keeps. *)
Definition stable (I : scan_state -> Prop) : Prop :=
  forall st, I st ->
             I (set_remove st) /\ forall type e, I (push st type e).

(** [updateAvailable] is only set when a plan has an entry. *)
Definition plans_flagged (st : scan_state) : Prop :=
  updateAvailable st = true ->
  deps_dependencies st <> [] \/ deps_devDependencies st <> [].

(** What [upgradeQuasar] logs before the scan. *)
Definition header (packager : string) : list event :=
  [ConsoleLog "";
   LoggerLog ("Gathering information with " ++ packager ++ "...");
   ConsoleLog ""].

Definition legacy_path (root : string) : list string :=
  [root; "node_modules/@quasar/app"].

(** ** Sample environments, for the examples *)

Definition no_color (s : string) : string := s.

(** A world without state in which the package manager echoes the command
    it is given, [registry] reads the answer off that command, every
    installed package has the version [installed] gives, and removals and
    installs succeed.  The strings of the examples are ASCII, so that
    [string_index_last] is never consulted. *)
Definition sample_env (installed : string -> option package_json)
           (registry : string -> option value) : Env :=
  {| World := unit;
     node_packager := fun _ => "npm";
     getPackageJson := fun name _ => installed name;
     execSync := fun cmd w => (w, Some cmd);
     JSON_parse := registry;
     removeSync := fun _ w => (w, true);
     spawn := fun _ _ _ w => (w, true);
     green := no_color;
     red := no_color;
     object_index_last := fun _ => Returned VUndefined;
     string_index_last := fun _ => VUndefined |}.

(** A package manager that fails to run. *)
Definition offline_env : Env :=
  {| World := unit;
     node_packager := fun _ => "npm";
     getPackageJson := fun _ _ => None;
     execSync := fun _ w => (w, None);
     JSON_parse := fun _ => None;
     removeSync := fun _ w => (w, true);
     spawn := fun _ _ _ w => (w, true);
     green := no_color;
     red := no_color;
     object_index_last := fun _ => Returned VUndefined;
     string_index_last := fun _ => VUndefined |}.

(** A package manager whose output is not JSON. *)
Definition garbled_env : Env := sample_env (fun _ => None) (fun _ => None).

(** A registry that answers with an error envelope. *)
Definition failing_env : Env :=
  sample_env (fun _ => None)
             (fun _ => Some (VObj [("type", VStr "error");
                                   ("data", VStr "Not found")])).

Definition no_flags : Argv :=
  {| install := false; prerelease := false; major := false |}.

Definition major_flag : Argv :=
  {| install := false; prerelease := false; major := true |}.

Definition install_flag : Argv :=
  {| install := true; prerelease := false; major := false |}.

Definition strs (l : list string) : value := VArr (map VStr l).

(** A project with [quasar] 2.0.0 and [@quasar/app] 3.1.0 installed, and a
    registry that knows newer versions of both. *)
Definition sample_installed (name : string) : option package_json :=
  if String.eqb name "quasar" then Some {| version := "2.0.0" |}
  else if String.eqb name "@quasar/app" then Some {| version := "3.1.0" |}
  else None.

Definition sample_registry (out : string) : option value :=
  if String.eqb out "npm info quasar versions --json"
  then Some (strs ["1.0.0"; "2.0.0"; "2.1.0"])
  else if String.eqb out "npm info @quasar/app-webpack versions --json"
  then Some (strs ["3.0.0"; "3.2.0"])
  else None.

Definition sample_project : Env := sample_env sample_installed sample_registry.

Definition sample_pkg : manifest :=
  {| pkg_dependencies := Some [("quasar", "^2.0.0"); ("vue", "3.0.0")];
     pkg_devDependencies := Some [("@quasar/app", "3.1.0")] |}.

(** The same project once everything is at its latest version. *)
Definition current_registry (out : string) : option value :=
  if String.eqb out "npm info quasar versions --json"
  then Some (strs ["1.0.0"; "2.0.0"])
  else None.

Definition current_project : Env :=
  sample_env (fun name => if String.eqb name "quasar"
                          then Some {| version := "2.0.0" |} else None)
             current_registry.

Definition current_pkg : manifest :=
  {| pkg_dependencies := Some [("quasar", "2.0.0"); ("vue", "3.0.0")];
     pkg_devDependencies := None |}.

(** A plan with one entry per group. *)
Definition sample_plan : scan_state :=
  {| deps_dependencies :=
       [{| packageName := "quasar"; latestVersion := VStr "2.1.0" |}];
     deps_devDependencies :=
       [{| packageName := "@quasar/app-webpack";
           latestVersion := VStr "3.2.0" |}];
     updateAvailable := true;
     removeDeprecatedAppPkg := true |}.

(** A file system with [src/App] and [src/App.js]. *)
Definition sample_fs (path : string) : bool :=
  String.eqb path "src/App" || String.eqb path "src/App.js".

(** ** Further reference definitions *)

(** The last line of a run that installed. *)
Definition success_line : string :=
  "Successfully upgraded Quasar packages." ++ nl.

(** [name] comes from the manifest group [type]: it is one of its keys, or
    the successor of [@quasar/app] when that is one of its keys. *)
Definition declared (pkg : manifest) (type : dep_type) (name : string)
  : Prop :=
  In name (group_keys pkg type)
  \/ (name = "@quasar/app-webpack" /\ In "@quasar/app" (group_keys pkg type)).

(** What every plan entry satisfies. *)
Definition plan_ok (pkg : manifest) (st : scan_state) : Prop :=
  forall type e,
    In e (deps st type) ->
    is_quasar_package (packageName e) = true
    /\ declared pkg type (packageName e)
    /\ latestVersion e <> VNull.

(** What the scan keeps true of its variables. *)
Definition scan_ok (pkg : manifest) (st : scan_state) : Prop :=
  plan_ok pkg st
  /\ (removeDeprecatedAppPkg st = true ->
      exists type, In "@quasar/app" (group_keys pkg type))
  /\ (updateAvailable st = true <-> exists type, deps st type <> []).

(** The events of a scan: registry queries about Quasar packages and
    console lines. *)
Definition scan_event (packager : string) (e : event) : Prop :=
  match e with
  | ExecSync cmd =>
      exists name,
        is_quasar_package name = true /\ cmd = info_command packager name
  | ConsoleLog _ => True
  | _ => False
  end.

(** The events of the installs: everything but the logger. *)
Definition install_event (e : event) : Prop :=
  match e with
  | LoggerLog _ => False
  | _ => True
  end.

(** The removal of the installed files of a plan entry. *)
Definition removal (root : string) (dep : plan_entry) : event :=
  RemoveSync [root; "node_modules"; packageName dep].

(** A registry reached through yarn, which wraps the list in [data]. *)
Definition yarn_registry (out : string) : option value :=
  if String.eqb out "yarn info quasar versions --json"
  then Some (VObj [("type", VStr "inspect");
                   ("data", strs ["1.0.0"; "2.0.0"; "2.1.0"])])
  else if String.eqb out "npm info quasar versions --json"
  then Some (strs ["1.0.0"; "2.0.0"; "2.1.0"])
  else if String.eqb out "npm info vue versions --json"
  then Some (VStr "3.0.0")
  else if String.eqb out "npm info quasar-null versions --json"
  then Some VNull
  else if String.eqb out "yarn info @quasar/extras versions --json"
  then Some (VObj [("type", VStr "inspect")])
  else if String.eqb out "npm info eslint-plugin-quasar versions --json"
  then Some VNull
  else None.

Definition yarn_project : Env := sample_env sample_installed yarn_registry.

(** A manifest without Quasar packages, and without [devDependencies]. *)
Definition plain_pkg : manifest :=
  {| pkg_dependencies := Some [("vue", "3.0.0"); ("axios", "^1.0.0")];
     pkg_devDependencies := None |}.

(** A manifest with a package whose registry answer is [null]. *)
Definition broken_pkg : manifest :=
  {| pkg_dependencies := Some [("quasar", "^2.0.0");
                               ("eslint-plugin-quasar", "1.0.0")];
     pkg_devDependencies := None |}.

(** A manifest that only has [devDependencies]. *)
Definition dev_only_pkg : manifest :=
  {| pkg_dependencies := None;
     pkg_devDependencies := Some [("@quasar/app", "3.1.0")] |}.

(** A project whose installed [quasar] is of a major version of which
    the registry lists no release. *)
Definition ahead_installed (name : string) : option package_json :=
  if String.eqb name "quasar" then Some {| version := "3.0.0" |} else None.

Definition ahead_project : Env := sample_env ahead_installed sample_registry.

Definition ahead_pkg : manifest :=
  {| pkg_dependencies := Some [("quasar", "^3.0.0")];
     pkg_devDependencies := Some [] |}.

(** The manifest of [sample_project] with both packages pinned to the
    installed versions. *)
Definition pinned_pkg : manifest :=
  {| pkg_dependencies := Some [("quasar", "2.0.0")];
     pkg_devDependencies := Some [("@quasar/app", "3.1.0")] |}.

(** Every event that [m] emits satisfies [Q], in every world. *)
Definition emits {E : Env} {A : Type} (Q : event -> Prop) (m : M E A)
  : Prop :=
  forall w, Forall Q (snd (fst (m w))).

(** [m] logs [line] through the logger exactly when it returns. *)
Definition logs_on_return {E : Env} (line : string) (m : M E unit) : Prop :=
  forall w, In (LoggerLog line) (snd (fst (m w))) <-> snd (m w) = Returned tt.

(** The events of the removal of [@quasar/app], when nothing fails. *)
Definition legacy_events (root packager : string) (st : scan_state)
  : list event :=
  if removeDeprecatedAppPkg st
  then [RemoveSync (legacy_path root); ConsoleLog "";
        Spawn packager (uninstall_params packager) root]
  else [].

(** The events of the install of one group, when nothing fails. *)
Definition group_events (root packager : string) (pkg : manifest)
           (st : scan_state) (type : dep_type) : list event :=
  match deps st type with
  | [] => []
  | entries =>
      (map (removal root) entries
         ++ [ConsoleLog "";
             Spawn packager
                   (install_params packager type
                      ++ map (pinning_arg pkg) entries) root])%list
  end.

(** * Proofs *)

(** Case analysis on a character known to differ from the one expected. *)
Ltac other_char c :=
  destruct c as [[] [] [] [] [] [] [] []];
  try reflexivity; try discriminate; congruence.

(** The events of a trace that is given in full. *)
Create HintDb trace.
#[local] Hint Unfold quiet : trace.
#[local] Hint Constructors Forall : trace.

(** ** Strings *)

Lemma append_nil_r (s : string) : s ++ "" = s.
Proof. induction s; simpl; congruence. Qed.

Lemma append_assoc (a b c : string) : (a ++ b) ++ c = a ++ b ++ c.
Proof. induction a; simpl; congruence. Qed.

Lemma substring_append (a r : string) :
  substring 0 (String.length a) (a ++ r) = a.
Proof.
  induction a as [|c a IH]; simpl.
  - destruct r; reflexivity.
  - now rewrite IH.
Qed.

Lemma is_digit_not_dot (c : ascii) :
  is_digit c = true -> Ascii.eqb c "." = false.
Proof.
  intros H. destruct (Ascii.eqb_spec c "."); [subst; discriminate|reflexivity].
Qed.

Lemma span_digits_spec (s d r : string) :
  span_digits s = (d, r) ->
  s = d ++ r /\ all_digits d = true /\ starts_with_digit r = false.
Proof.
  revert d r. induction s as [|c s IH]; simpl; intros d r H.
  - inversion H; subst. auto.
  - destruct (is_digit c) eqn:Hc.
    + destruct (span_digits s) as [d' r'] eqn:Hs. inversion H; subst.
      destruct (IH _ _ eq_refl) as (-> & Hd & Hr). simpl. rewrite Hc. auto.
    + inversion H; subst. simpl. auto.
Qed.

Lemma span_digits_append (d r : string) :
  all_digits d = true -> starts_with_digit r = false ->
  span_digits (d ++ r) = (d, r).
Proof.
  induction d as [|c d IH]; simpl; intros Hd Hr.
  - destruct r as [|c r]; simpl in *; [reflexivity|now rewrite Hr].
  - apply andb_prop in Hd as [Hc Hd]. now rewrite Hc, IH.
Qed.

Lemma digits_iff (s : string) :
  digits s = true <-> empty s = false /\ all_digits s = true.
Proof. destruct s; simpl; intuition congruence. Qed.

Lemma strip_prefix_spec (p s r : string) :
  strip_prefix p s = Some r <-> s = p ++ r.
Proof.
  revert s. induction p as [|c p IH]; intros s; simpl.
  - split; congruence.
  - destruct s as [|d s].
    + split; discriminate.
    + destruct (Ascii.eqb_spec d c) as [->|Hn].
      * rewrite IH. split; congruence.
      * split; [discriminate|congruence].
Qed.

Lemma strip_prefix_append (p r : string) : strip_prefix p (p ++ r) = Some r.
Proof. now apply strip_prefix_spec. Qed.

Lemma prefix_strip (p s : string) :
  prefix p s = true <-> exists r, strip_prefix p s = Some r.
Proof.
  revert s. induction p as [|c p IH]; intros s; simpl.
  - destruct s; split; eauto.
  - destruct s as [|d s]; simpl.
    + split; [discriminate|intros [r H]; discriminate].
    + destruct (ascii_dec c d) as [->|Hn].
      * rewrite Ascii.eqb_refl. apply IH.
      * destruct (Ascii.eqb_spec d c); [congruence|].
        split; [discriminate|intros [r H]; discriminate].
Qed.

(** ** The matcher on runs of digits *)

Section DigitRuns.

(** What follows the run either cannot start with a digit or cannot
    fail: in both cases the greedy repetition stops at the end of the
    run. *)
Variable k : mstate -> option captures.
Hypothesis Hk : forced k \/ total k.

Lemma rstar_digits (s : string) (p : nat) (cs : captures) :
  rstar ADigit p s cs k
  = k (MState (p + String.length (fst (span_digits s)))
              (snd (span_digits s)) cs).
Proof.
  revert p cs. induction s as [|c s IH]; intros p cs; simpl.
  - now rewrite Nat.add_0_r.
  - destruct (is_digit c) eqn:Hc.
    + rewrite IH. destruct (span_digits s) as [d r]; simpl.
      rewrite Nat.add_succ_r.
      destruct (k (MState (S (p + String.length d)) r cs)) eqn:Hmax;
        [reflexivity|].
      destruct Hk as [Hf|Ht].
      * apply Hf. simpl. exact Hc.
      * now apply Ht in Hmax.
    + simpl. now rewrite Nat.add_0_r.
Qed.

Lemma rplus_digits (st : mstate) :
  rmatch (RPlus ADigit) st k
  = let (d, r) := span_digits (rest st) in
    if empty d then None
    else k (MState (pos st + String.length d) r (caps st)).
Proof.
  simpl. destruct (rest st) as [|c s]; simpl; [reflexivity|].
  destruct (is_digit c) eqn:Hc; simpl; [|reflexivity].
  rewrite rstar_digits.
  destruct (span_digits s) as [d r]; simpl.
  now rewrite Nat.add_succ_r.
Qed.

End DigitRuns.

Lemma grp_digits (g : option nat) (k : mstate -> option captures)
      (st : mstate) :
  forced k \/ total k ->
  rmatch (grp g (RPlus ADigit)) st k
  = let (d, r) := span_digits (rest st) in
    if empty d then None
    else k (MState (pos st + String.length d) r (cap g d (caps st))).
Proof.
  intros Hk. destruct g as [i|]; [|now apply rplus_digits].
  change (rmatch (grp (Some i) (RPlus ADigit)) st k)
    with (rmatch (RPlus ADigit) st (fun st1 => k (set_cap i st st1))).
  rewrite rplus_digits.
  - destruct (span_digits (rest st)) as [d r] eqn:Hs.
    destruct (empty d); [reflexivity|].
    unfold set_cap; simpl.
    apply span_digits_spec in Hs as (-> & _ & _).
    replace (pos st + String.length d - pos st) with (String.length d) by lia.
    now rewrite substring_append.
  - destruct Hk as [Hf|Ht]; [left|right].
    + intros st1 H1. apply Hf. exact H1.
    + intros st1. apply Ht.
Qed.

Lemma rmatch_dot (st : mstate) (k : mstate -> option captures) :
  rmatch dot st k
  = match rest st with
    | String "." r => k (MState (S (pos st)) r (caps st))
    | _ => None
    end.
Proof.
  unfold dot; simpl. destruct (rest st) as [|c r]; [reflexivity|].
  destruct (Ascii.eqb_spec c "."); [now subst|].
  other_char c.
Qed.

Lemma forced_dot (r : regex) (k : mstate -> option captures) :
  forced (fun st => rmatch (RSeq dot r) st k).
Proof.
  intros st H. change (rmatch (RSeq dot r) st k)
    with (rmatch dot st (fun st1 => rmatch r st1 k)).
  rewrite rmatch_dot. destruct (rest st) as [|c s]; [reflexivity|].
  simpl in H. destruct (Ascii.eqb_spec c "."); [subst; discriminate|].
  other_char c.
Qed.

Lemma dot_component (g : option nat) (tail : regex)
      (k : mstate -> option captures) (st : mstate) :
  forced (fun st' => rmatch tail st' k) \/ total (fun st' => rmatch tail st' k) ->
  rmatch (RSeq dot (RSeq (grp g (RPlus ADigit)) tail)) st k
  = match split_component (rest st) with
    | Some (d, r) =>
        rmatch tail (MState (S (pos st) + String.length d) r
                            (cap g d (caps st))) k
    | None => None
    end.
Proof.
  intros Hk.
  change (rmatch (RSeq dot (RSeq (grp g (RPlus ADigit)) tail)) st k)
    with (rmatch dot st (fun st1 =>
            rmatch (grp g (RPlus ADigit)) st1 (fun st2 => rmatch tail st2 k))).
  rewrite rmatch_dot. unfold split_component.
  destruct (rest st) as [|c s]; [reflexivity|].
  destruct (Ascii.eqb_spec c ".") as [->|Hn].
  - rewrite grp_digits by exact Hk. simpl.
    destruct (span_digits s) as [d r]. now destruct (empty d).
  - other_char c.
Qed.

(** [\.\d+\.\d+] and what follows. *)
Lemma two_components (g2 g3 : option nat) (tail : regex)
      (k : mstate -> option captures) (st : mstate) :
  forced (fun st' => rmatch tail st' k) \/ total (fun st' => rmatch tail st' k) ->
  rmatch (RSeq dot (RSeq (grp g2 (RPlus ADigit))
            (RSeq dot (RSeq (grp g3 (RPlus ADigit)) tail)))) st k
  = match split_tail (rest st) with
    | Some (b, c, r) =>
        rmatch tail
               (MState (S (S (pos st) + String.length b) + String.length c) r
                       (cap g3 c (cap g2 b (caps st)))) k
    | None => None
    end.
Proof.
  intros Hk. rewrite dot_component by (left; apply forced_dot).
  unfold split_tail.
  destruct (split_component (rest st)) as [[b r2]|]; [|reflexivity].
  rewrite dot_component by exact Hk. cbn [rest pos caps].
  now destruct (split_component r2) as [[c r3]|].
Qed.

Lemma split_tail_no_digit (s b c r : string) :
  split_tail s = Some (b, c, r) -> starts_with_digit s = false.
Proof.
  unfold split_tail, split_component. destruct s as [|x s]; [discriminate|].
  intros H. simpl. destruct (is_digit x) eqn:Hx; [|reflexivity].
  apply is_digit_not_dot in Hx. other_char x.
Qed.

(** The three components, after [^]. *)
Lemma version_core (g1 g2 g3 : option nat) (tail : regex)
      (k : mstate -> option captures) (v : string) :
  forced (fun st' => rmatch tail st' k) \/ total (fun st' => rmatch tail st' k) ->
  rmatch (version_pattern g1 g2 g3 tail) (MState 0 v []) k
  = match split_version v with
    | Some (a, b, c, r) =>
        rmatch tail
               (MState (S (S (String.length a) + String.length b)
                        + String.length c) r
                       (cap g3 c (cap g2 b (cap g1 a [])))) k
    | None => None
    end.
Proof.
  intros Hk. unfold version_pattern.
  change (rmatch (RSeq RBol ?r) (MState 0 v []) k)
    with (rmatch r (MState 0 v []) k).
  change (rmatch (RSeq (grp g1 (RPlus ADigit)) ?r) (MState 0 v []) k)
    with (rmatch (grp g1 (RPlus ADigit)) (MState 0 v [])
                 (fun st1 => rmatch r st1 k)).
  rewrite grp_digits by (left; apply forced_dot).
  unfold split_version. cbn [rest pos caps].
  destruct (span_digits v) as [a r1]. destruct (empty a); [reflexivity|].
  rewrite two_components by exact Hk. cbn [rest pos caps].
  now destruct (split_tail r1) as [[[b c] r3]|].
Qed.

Lemma search_bol (r : regex) (s : string) (p : nat) :
  search (RSeq RBol r) (S p) s = None.
Proof.
  revert p. induction s as [|c s IH]; intros p; simpl; [reflexivity|apply IH].
Qed.

Lemma search_anchored (r : regex) (s : string) :
  search (RSeq RBol r) 0 s = rmatch (RSeq RBol r) (MState 0 s []) done.
Proof.
  destruct s as [|c s]; unfold search; fold search.
  - now destruct (rmatch _ _ _).
  - rewrite search_bol. now destruct (rmatch _ _ _).
Qed.

Lemma rmatch_lit (m : string) (st : mstate) (k : mstate -> option captures) :
  rmatch (lit m) st k
  = match strip_prefix m (rest st) with
    | Some r => k (MState (pos st + String.length m) r (caps st))
    | None => None
    end.
Proof.
  revert st. induction m as [|c m IH]; intros [p s cs]; simpl.
  - now rewrite Nat.add_0_r.
  - destruct s as [|d s]; [reflexivity|].
    destruct (Ascii.eqb d c); [|reflexivity].
    rewrite IH. simpl. now rewrite Nat.add_succ_r.
Qed.

Lemma rmatch_eol (st : mstate) :
  rmatch REol st done = if empty (rest st) then Some (caps st) else None.
Proof. simpl. now destruct (rest st). Qed.

Lemma forced_eol : forced (fun st => rmatch REol st done).
Proof.
  intros st H. rewrite rmatch_eol. now destruct (rest st).
Qed.

Lemma tag_of_cases (s : string) :
  match tag_of s with
  | Some t => (t = "alpha" \/ t = "beta" \/ t = "rc") /\ exists r, s = t ++ r
  | None => strip_prefix "alpha" s = None /\ strip_prefix "beta" s = None
            /\ strip_prefix "rc" s = None
  end.
Proof.
  unfold tag_of.
  destruct (prefix "alpha" s) eqn:Ha.
  { apply prefix_strip in Ha as [r Hr]. apply strip_prefix_spec in Hr. eauto. }
  destruct (prefix "beta" s) eqn:Hb.
  { apply prefix_strip in Hb as [r Hr]. apply strip_prefix_spec in Hr. eauto 6. }
  destruct (prefix "rc" s) eqn:Hc.
  { apply prefix_strip in Hc as [r Hr]. apply strip_prefix_spec in Hr. eauto 6. }
  repeat split.
  - destruct (strip_prefix "alpha" s) eqn:H; [|reflexivity].
    assert (prefix "alpha" s = true) by (apply prefix_strip; eauto). congruence.
  - destruct (strip_prefix "beta" s) eqn:H; [|reflexivity].
    assert (prefix "beta" s = true) by (apply prefix_strip; eauto). congruence.
  - destruct (strip_prefix "rc" s) eqn:H; [|reflexivity].
    assert (prefix "rc" s = true) by (apply prefix_strip; eauto). congruence.
Qed.

(** [(alpha|beta|rc)?] at the end of a pattern. *)
Lemma rmatch_opt_tag (i : nat) (st : mstate) :
  rmatch (ROpt (RGroup i tags)) st done
  = match tag_of (rest st) with
    | Some t => Some ((i, t) :: caps st)
    | None => Some (caps st)
    end.
Proof.
  destruct st as [p s cs].
  change (rmatch (ROpt (RGroup i tags)) (MState p s cs) done)
    with (match rmatch tags (MState p s cs)
                       (fun st1 => done (set_cap i (MState p s cs) st1)) with
          | Some c => Some c
          | None => done (MState p s cs)
          end).
  unfold tags.
  change (rmatch (RAlt ?a (RAlt ?b ?c)) ?st ?k)
    with (match rmatch a st k with
          | Some x => Some x
          | None => match rmatch b st k with
                    | Some x => Some x
                    | None => rmatch c st k
                    end
          end).
  rewrite !rmatch_lit. simpl rest. simpl pos. simpl caps.
  pose proof (tag_of_cases s) as Ht.
  destruct (tag_of s) as [t|].
  - destruct Ht as [Hcase [r ->]].
    destruct Hcase as [-> | [-> | ->]].
    + rewrite (strip_prefix_append "alpha" r).
      unfold done, set_cap; simpl caps; simpl pos; simpl rest.
      replace (p + 5 - p) with 5 by lia. now destruct r.
    + destruct (strip_prefix "alpha" ("beta" ++ r)) eqn:Ha.
      { apply strip_prefix_spec in Ha. discriminate. }
      rewrite (strip_prefix_append "beta" r).
      unfold done, set_cap; simpl caps; simpl pos; simpl rest.
      replace (p + 4 - p) with 4 by lia. now destruct r.
    + destruct (strip_prefix "alpha" ("rc" ++ r)) eqn:Ha.
      { apply strip_prefix_spec in Ha. discriminate. }
      destruct (strip_prefix "beta" ("rc" ++ r)) eqn:Hb.
      { apply strip_prefix_spec in Hb. discriminate. }
      rewrite (strip_prefix_append "rc" r).
      unfold done, set_cap; simpl caps; simpl pos; simpl rest.
      replace (p + 2 - p) with 2 by lia. now destruct r.
  - destruct Ht as (-> & -> & ->). reflexivity.
Qed.

(** [-?(alpha|beta|rc)?] at the end of a pattern. *)
Lemma rmatch_tag_tail (i : nat) (st : mstate) :
  rmatch (tag_tail i) st done
  = match tag_of (skip_dash (rest st)) with
    | Some t => Some ((i, t) :: caps st)
    | None => Some (caps st)
    end.
Proof.
  unfold tag_tail.
  change (rmatch (RSeq (ROpt dash) (ROpt (RGroup i tags))) st done)
    with (match rmatch dash st
                       (fun st1 => rmatch (ROpt (RGroup i tags)) st1 done) with
          | Some c => Some c
          | None => rmatch (ROpt (RGroup i tags)) st done
          end).
  destruct st as [p s cs]. unfold dash.
  destruct s as [|c s].
  - simpl rmatch at 1. now rewrite rmatch_opt_tag.
  - destruct (Ascii.eqb_spec c "-") as [->|Hn].
    + change (rmatch (RAtom (AChar "-")) (MState p (String "-" s) cs) ?k)
        with (k (MState (S p) s cs)).
      cbv beta. rewrite rmatch_opt_tag. cbn [rest caps skip_dash].
      now destruct (tag_of s).
    + assert (Hc : rmatch (RAtom (AChar "-")) (MState p (String c s) cs)
                     (fun st1 => rmatch (ROpt (RGroup i tags)) st1 done) = None).
      { simpl. destruct (Ascii.eqb_spec c "-"); [congruence|reflexivity]. }
      rewrite Hc, rmatch_opt_tag.
      assert (Hs : skip_dash (String c s) = String c s).
      { other_char c. }
      simpl rest. now rewrite Hs.
Qed.

Lemma total_tag_tail (i : nat) :
  total (fun st => rmatch (tag_tail i) st done).
Proof.
  intros st. rewrite rmatch_tag_tail. now destruct (tag_of _).
Qed.

(** ** [versionRegex] reads the major component and the tag *)

Lemma search_version_pattern (g1 g2 g3 : option nat) (tail : regex)
      (s : string) :
  forced (fun st' => rmatch tail st' done)
  \/ total (fun st' => rmatch tail st' done) ->
  search (version_pattern g1 g2 g3 tail) 0 s
  = match split_version s with
    | Some (a, b, c, r) =>
        rmatch tail
               (MState (S (S (String.length a) + String.length b)
                        + String.length c) r
                       (cap g3 c (cap g2 b (cap g1 a [])))) done
    | None => None
    end.
Proof.
  intros Hk. rewrite <- version_core by exact Hk.
  unfold version_pattern. apply search_anchored.
Qed.

Lemma versionRegex_match (s : string) :
  js_match s versionRegex
  = match split_version s with
    | Some (a, _, _, r) =>
        match tag_of (skip_dash r) with
        | Some t => Some [(2, t); (1, a)]
        | None => Some [(1, a)]
        end
    | None => None
    end.
Proof.
  unfold js_match.
  change versionRegex with (version_pattern (Some 1) None None (tag_tail 2)).
  rewrite search_version_pattern by (right; apply total_tag_tail).
  destruct (split_version s) as [[[[a b] c] r]|]; [|reflexivity].
  now rewrite rmatch_tag_tail.
Qed.

Lemma versionRegex_spec (s : string) :
  match parse_version s with
  | Some (a, t) =>
      exists m, js_match s versionRegex = Some m
                /\ get_cap 1 m = Some a /\ get_cap 2 m = t
  | None => js_match s versionRegex = None
  end.
Proof.
  rewrite versionRegex_match. unfold parse_version.
  destruct (split_version s) as [[[[a b] c] r]|]; [|reflexivity].
  destruct (tag_of (skip_dash r)) as [t|]; eexists; repeat split.
Qed.

Lemma split_component_spec (s d r : string) :
  split_component s = Some (d, r)
  <-> s = String "." (d ++ r) /\ digits d = true
      /\ starts_with_digit r = false.
Proof.
  unfold split_component. split.
  - destruct s as [|x s]; [discriminate|].
    destruct (Ascii.eqb_spec x ".") as [->|Hn]; [|other_char x].
    destruct (span_digits s) as [d' r'] eqn:Hs.
    destruct (empty d') eqn:Hd; [discriminate|].
    intros H; inversion H; subst.
    apply span_digits_spec in Hs as (-> & Hd' & Hr).
    repeat split; auto. now apply digits_iff.
  - intros (-> & Hd & Hr). apply digits_iff in Hd as [Hd Hd'].
    now rewrite (span_digits_append d r Hd' Hr), Hd.
Qed.

Lemma split_version_spec (v a b c r : string) :
  split_version v = Some (a, b, c, r)
  <-> v = a ++ "." ++ b ++ "." ++ c ++ r
      /\ digits a = true /\ digits b = true /\ digits c = true
      /\ starts_with_digit r = false.
Proof.
  unfold split_version, split_tail. split.
  - destruct (span_digits v) as [a' r1] eqn:H1.
    destruct (empty a') eqn:Ha; [discriminate|].
    destruct (split_component r1) as [[b' r2]|] eqn:H2; [|discriminate].
    destruct (split_component r2) as [[c' r3]|] eqn:H3; [|discriminate].
    intros H; inversion H; subst.
    apply span_digits_spec in H1 as (-> & Ha' & _).
    apply split_component_spec in H2 as (-> & Hb & _).
    apply split_component_spec in H3 as (-> & Hc & Hr).
    repeat split; auto. now apply digits_iff.
  - intros (-> & Ha & Hb & Hc & Hr).
    apply digits_iff in Ha as [Ha Ha'].
    rewrite (span_digits_append a) by auto. rewrite Ha.
    assert (H2 : split_component ("." ++ b ++ "." ++ c ++ r)
                 = Some (b, "." ++ c ++ r))
      by (apply split_component_spec; auto).
    assert (H3 : split_component ("." ++ c ++ r) = Some (c, r))
      by (apply split_component_spec; auto).
    now rewrite H2, H3.
Qed.

Lemma append_cancel (a r r' : string) : a ++ r = a ++ r' -> r = r'.
Proof. induction a; simpl; intros H; [exact H|inversion H; auto]. Qed.

(** ** The candidate patterns *)

Lemma test_version_pattern (g1 g2 g3 : option nat) (tail : regex)
      (f : string -> bool) (v : string) :
  forced (fun st' => rmatch tail st' done)
  \/ total (fun st' => rmatch tail st' done) ->
  suffix_test tail f ->
  regex_test (version_pattern g1 g2 g3 tail) v
  = match split_version v with
    | Some (_, _, _, r) => f r
    | None => false
    end.
Proof.
  intros Hk Hf. unfold regex_test.
  rewrite search_version_pattern by exact Hk.
  destruct (split_version v) as [[[[a b] c] r]|]; [|reflexivity].
  now rewrite Hf.
Qed.

Lemma test_literal_major (m : string) (g2 g3 : option nat) (tail : regex)
      (f : string -> bool) (v : string) :
  digits m = true ->
  forced (fun st' => rmatch tail st' done)
  \/ total (fun st' => rmatch tail st' done) ->
  suffix_test tail f ->
  regex_test (RSeq RBol (RSeq (lit m)
                (RSeq dot (RSeq (grp g2 (RPlus ADigit))
                   (RSeq dot (RSeq (grp g3 (RPlus ADigit)) tail)))))) v
  = match split_version v with
    | Some (a, _, _, r) => String.eqb a m && f r
    | None => false
    end.
Proof.
  intros Hm Hk Hf. apply digits_iff in Hm as [Hm Hd].
  unfold regex_test. rewrite search_anchored.
  change (rmatch (RSeq RBol (RSeq (lit m) ?X)) (MState 0 v []) done)
    with (rmatch (lit m) (MState 0 v []) (fun st1 => rmatch X st1 done)).
  rewrite rmatch_lit. cbn [rest pos caps].
  assert (Hrest : forall p r,
             succeeds (rmatch (RSeq dot (RSeq (grp g2 (RPlus ADigit))
                         (RSeq dot (RSeq (grp g3 (RPlus ADigit)) tail))))
                         (MState p r []) done)
             = match split_tail r with
               | Some (_, _, r3) => f r3
               | None => false
               end).
  { intros p r. rewrite two_components by exact Hk. cbn [rest].
    destruct (split_tail r) as [[[b c] r3]|]; [|reflexivity].
    now rewrite Hf. }
  unfold split_version.
  destruct (span_digits v) as [a r1] eqn:Hs.
  pose proof (span_digits_spec _ _ _ Hs) as (Hv & Ha & Hr1).
  destruct (String.eqb_spec a m) as [->|Hne].
  - rewrite Hv, strip_prefix_append, Hrest, Hm.
    destruct (split_tail r1) as [[[b c] r3]|]; [|reflexivity].
    now rewrite String.eqb_refl.
  - apply String.eqb_neq in Hne.
    assert (Hrhs : match (if empty a then None
                          else match split_tail r1 with
                               | Some (b, c, r3) => Some (a, b, c, r3)
                               | None => None
                               end) with
                   | Some (a0, _, _, r) => String.eqb a0 m && f r
                   | None => false
                   end = false).
    { destruct (empty a); [reflexivity|].
      destruct (split_tail r1) as [[[b c] r3]|]; [|reflexivity].
      now rewrite Hne. }
    rewrite Hrhs.
    destruct (strip_prefix m v) as [r|] eqn:Hp; [|reflexivity].
    rewrite Hrest. apply strip_prefix_spec in Hp.
    destruct (split_tail r) as [[[b c] r3]|] eqn:Hc; [|reflexivity].
    apply split_tail_no_digit in Hc.
    rewrite Hp, (span_digits_append m r Hd Hc) in Hs.
    apply String.eqb_neq in Hne. congruence.
Qed.

Lemma suffix_test_eol : suffix_test REol empty.
Proof. intros st. rewrite rmatch_eol. now destruct (rest st). Qed.

Lemma suffix_test_tag_tail (i : nat) : suffix_test (tag_tail i) (fun _ => true).
Proof.
  intros st. rewrite rmatch_tag_tail. now destruct (tag_of _).
Qed.

(** The regex of lines 99 to 104 computes the matching rule. *)
Lemma candidateRegex_accepts (argv : Argv) (m : string) (t : option string)
      (v : string) :
  digits m = true ->
  regex_test (candidateRegex argv (Some m) t) v
  = accepts (if major argv then None else Some m)
            (negb (truthy t || prerelease argv)) v.
Proof.
  intros Hm. unfold candidateRegex, accepts.
  destruct (truthy t || prerelease argv); destruct (major argv); cbn [negb interpolate].
  - change (rseq _) with (version_pattern (Some 1) (Some 2) (Some 3) (tag_tail 4)).
    rewrite (test_version_pattern _ _ _ _ (fun _ => true))
      by (try (right; apply total_tag_tail); apply suffix_test_tag_tail).
    now destruct (split_version v) as [[[[a b] c] r]|].
  - change (rseq _) with (RSeq RBol (RSeq (lit m)
                (RSeq dot (RSeq (grp (Some 1) (RPlus ADigit))
                   (RSeq dot (RSeq (grp (Some 2) (RPlus ADigit)) (tag_tail 3))))))).
    rewrite (test_literal_major _ _ _ _ (fun _ => true))
      by (try exact Hm; try (right; apply total_tag_tail); apply suffix_test_tag_tail).
    now destruct (split_version v) as [[[[a b] c] r]|].
  - change (rseq _) with (version_pattern (Some 1) (Some 2) (Some 3) REol).
    rewrite (test_version_pattern _ _ _ _ empty)
      by (try (left; apply forced_eol); apply suffix_test_eol).
    now destruct (split_version v) as [[[[a b] c] r]|].
  - change (rseq _) with (RSeq RBol (RSeq (lit m)
                (RSeq dot (RSeq (grp (Some 1) (RPlus ADigit))
                   (RSeq dot (RSeq (grp (Some 2) (RPlus ADigit)) REol)))))).
    rewrite (test_literal_major _ _ _ _ empty)
      by (try exact Hm; try (left; apply forced_eol); apply suffix_test_eol).
    now destruct (split_version v) as [[[[a b] c] r]|].
Qed.

(** ** The matching rule and the form of a version *)

Lemma major_ok_iff (fixed : option string) (a : string) :
  major_ok fixed a = true <-> forall m, fixed = Some m -> a = m.
Proof.
  destruct fixed as [m|]; simpl.
  - rewrite String.eqb_eq. split; [intros -> m' H; congruence|auto].
  - split; [discriminate|reflexivity].
Qed.

Lemma all_digits_append (a b : string) :
  all_digits a = true -> all_digits b = true -> all_digits (a ++ b) = true.
Proof.
  induction a as [|c a IH]; simpl; intros Ha Hb; [exact Hb|].
  apply andb_prop in Ha as [Hc Ha]. now rewrite Hc, IH.
Qed.

Lemma digits_append (a b : string) :
  digits a = true -> all_digits b = true -> digits (a ++ b) = true.
Proof.
  intros Ha Hb. apply digits_iff in Ha as [Ha Ha'].
  apply digits_iff. split; [now destruct a|now apply all_digits_append].
Qed.

Lemma version_form_split (fixed : option string) (v suffix : string) :
  version_form fixed v suffix ->
  exists a b c d r,
    span_digits suffix = (d, r)
    /\ split_version v = Some (a, b, c ++ d, r) /\ major_ok fixed a = true.
Proof.
  intros (a & b & c & -> & Ha & Hb & Hc & Hm).
  destruct (span_digits suffix) as [d r] eqn:Hs.
  exists a, b, c, d, r. split; [reflexivity|]. split.
  - apply span_digits_spec in Hs as (-> & Hd & Hr).
    apply split_version_spec. rewrite append_assoc.
    repeat split; auto using digits_append.
  - now apply major_ok_iff.
Qed.

Lemma accepts_exact_iff (fixed : option string) (v : string) :
  accepts fixed true v = true <-> version_form fixed v "".
Proof.
  unfold accepts. split.
  - destruct (split_version v) as [[[[a b] c] r]|] eqn:Hs; [|discriminate].
    intros H. apply andb_prop in H as [Hm Hr].
    destruct r; [|discriminate].
    apply split_version_spec in Hs as (-> & Ha & Hb & Hc & _).
    exists a, b, c. repeat split; auto. now apply major_ok_iff.
  - intros H. apply version_form_split in H as (a & b & c & d & r & Hs & -> & ->).
    simpl in Hs. now inversion Hs.
Qed.

Lemma accepts_prefix_iff (fixed : option string) (v : string) :
  accepts fixed false v = true <-> exists suffix, version_form fixed v suffix.
Proof.
  unfold accepts. split.
  - destruct (split_version v) as [[[[a b] c] r]|] eqn:Hs; [|discriminate].
    rewrite andb_true_r. intros Hm. exists r.
    apply split_version_spec in Hs as (-> & Ha & Hb & Hc & _).
    exists a, b, c. repeat split; auto. now apply major_ok_iff.
  - intros [suffix H].
    apply version_form_split in H as (a & b & c & d & r & Hs & -> & ->).
    reflexivity.
Qed.

Lemma tag_suffix_no_digit (s : string) :
  In s tag_suffixes -> starts_with_digit s = false.
Proof.
  unfold tag_suffixes. simpl.
  intros [<-|[<-|[<-|[<-|[<-|[<-|[<-|[<-|[]]]]]]]]]; reflexivity.
Qed.

Lemma accepts_tagged_iff (fixed : option string) (v : string) :
  accepts_tagged fixed v = true
  <-> exists suffix, In suffix tag_suffixes /\ version_form fixed v suffix.
Proof.
  unfold accepts_tagged. split.
  - destruct (split_version v) as [[[[a b] c] r]|] eqn:Hs; [|discriminate].
    intros H. apply andb_prop in H as [Hm Hr].
    apply existsb_exists in Hr as (x & Hin & Hx).
    apply String.eqb_eq in Hx. subst x. exists r. split; [exact Hin|].
    apply split_version_spec in Hs as (-> & Ha & Hb & Hc & _).
    exists a, b, c. repeat split; auto. now apply major_ok_iff.
  - intros (suffix & Hin & H).
    pose proof (tag_suffix_no_digit _ Hin) as Hnd.
    apply version_form_split in H as (a & b & c & d & r & Hs & -> & ->).
    assert (d = "" /\ r = suffix) as [-> ->].
    { destruct suffix as [|x s]; simpl in *; [now inversion Hs|].
      rewrite Hnd in Hs. now inversion Hs. }
    cbn [andb]. apply existsb_exists. exists suffix. split; [exact Hin|].
    apply String.eqb_refl.
Qed.

(** What [versionRegex] captures. *)
Lemma versionRegex_captures (cur : string) (m : captures) :
  js_match cur versionRegex = Some m ->
  exists a, get_cap 1 m = Some a /\ digits a = true
            /\ (get_cap 2 m = None \/ truthy (get_cap 2 m) = true).
Proof.
  rewrite versionRegex_match.
  destruct (split_version cur) as [[[[a b] c] r]|] eqn:Hs; [|discriminate].
  apply split_version_spec in Hs as (_ & Ha & _).
  pose proof (tag_of_cases (skip_dash r)) as Ht.
  destruct (tag_of (skip_dash r)) as [t|]; intros H; inversion H; subst;
    exists a; simpl; repeat split; auto.
  right. destruct Ht as [[-> | [-> | ->]] _]; reflexivity.
Qed.

Lemma filter_strs (f : value -> bool) (l : list string) :
  filter f (map VStr l) = map VStr (filter (fun v => f (VStr v)) l).
Proof.
  induction l as [|x l IH]; simpl; [reflexivity|].
  destruct (f (VStr x)); simpl; now rewrite IH.
Qed.

(** The candidates that [selectLatest] keeps, for a list of strings. *)
Lemma selectLatest_strs (E : Env) (argv : Argv) (cur : string) (m : captures)
      (l : list string) :
  js_match cur versionRegex = Some m ->
  selectLatest E argv (strs l) (Some cur)
  = Returned
      (last (map VStr
               (filter (regex_test
                          (candidateRegex argv (get_cap 1 m) (get_cap 2 m))) l))
            VUndefined).
Proof.
  intros H. unfold selectLatest, strs. rewrite H. simpl js_filter. cbv iota beta.
  rewrite filter_strs. reflexivity.
Qed.

(** C1: for an installed version that [versionRegex] reads without a tag,
    and without the prerelease flag, [selectLatest] keeps the candidates of
    the exact form [a.b.c] whose major component is the installed one (any
    major component with the major flag), in their order, and returns the
    last one kept.  With 1.2.3 installed and the candidates 1.2.2, 1.2.3,
    1.2.4, 2.0.0 it returns 1.2.4, and 2.0.0 with the major flag. *)
Theorem selectLatest_release_track (E : Env) (argv : Argv) (cur m : string)
        (caps0 : captures) (l : list string) :
  js_match cur versionRegex = Some caps0 ->
  get_cap 1 caps0 = Some m ->
  get_cap 2 caps0 = None ->
  prerelease argv = false ->
  let fixed := if major argv then None else Some m in
  selectLatest E argv (strs l) (Some cur)
  = Returned (last (map VStr (filter (accepts fixed true) l)) VUndefined)
  /\ (forall v, accepts fixed true v = true <-> version_form fixed v "")
  /\ selectLatest E no_flags (strs ["1.2.2"; "1.2.3"; "1.2.4"; "2.0.0"])
                  (Some "1.2.3") = Returned (VStr "1.2.4")
  /\ selectLatest E major_flag (strs ["1.2.2"; "1.2.3"; "1.2.4"; "2.0.0"])
                  (Some "1.2.3") = Returned (VStr "2.0.0").
Proof.
  intros Hm H1 H2 Hp fixed.
  destruct (versionRegex_captures _ _ Hm) as (a & Ha & Hd & _).
  assert (a = m) by congruence. subst a.
  split; [|split; [|split; reflexivity]].
  - rewrite (selectLatest_strs _ _ _ _ _ Hm), H1, H2.
    do 3 f_equal. apply filter_ext. intros v.
    rewrite candidateRegex_accepts by exact Hd. now rewrite Hp.
  - intros v. apply accepts_exact_iff.
Qed.

Lemma selectLatest_release_track_witness :
  js_match "1.2.3" versionRegex = Some [(1, "1")]
  /\ selectLatest garbled_env no_flags
                  (strs ["1.2.2"; "1.2.3"; "1.2.4"; "2.0.0"]) (Some "1.2.3")
     = Returned (last (map VStr (filter (accepts (Some "1") true)
                                        ["1.2.2"; "1.2.3"; "1.2.4"; "2.0.0"]))
                      VUndefined).
Proof.
  split; [reflexivity|].
  destruct (selectLatest_release_track
              garbled_env no_flags "1.2.3" "1" [(1, "1")]
              ["1.2.2"; "1.2.3"; "1.2.4"; "2.0.0"]
              eq_refl eq_refl eq_refl eq_refl) as [H _].
  exact H.
Defined.

(** C3: when no version is installed, [selectLatest] returns the last
    element of the candidate list, whatever the flags, and [undefined] when
    the list is empty. *)
Theorem selectLatest_not_installed (E : Env) (argv argv' : Argv)
        (l : list value) (x : value) :
  selectLatest E argv (VArr l) None = Returned (last l VUndefined)
  /\ selectLatest E argv (VArr (l ++ [x])) None = Returned x
  /\ selectLatest E argv (VArr []) None = Returned VUndefined
  /\ selectLatest E argv (VArr l) None = selectLatest E argv' (VArr l) None.
Proof.
  split; [reflexivity|]. split; [|split; reflexivity].
  simpl. now rewrite last_last.
Qed.

(** C2 as stated does not hold: with 1.2.3-beta installed and no flag,
    the candidate 1.2.4-gamma qualifies and is returned, although what
    follows its patch number is not an optional dash and an optional tag
    among alpha, beta, rc. *)
Lemma tagged_rule_counterexample :
  js_match "1.2.3-beta" versionRegex = Some [(2, "beta"); (1, "1")]
  /\ prerelease no_flags = false
  /\ regex_test (candidateRegex no_flags (Some "1") (Some "beta"))
                "1.2.4-gamma" = true
  /\ selectLatest garbled_env no_flags
                  (strs ["1.2.3-beta"; "1.2.4-gamma"]) (Some "1.2.3-beta")
     = Returned (VStr "1.2.4-gamma")
  /\ ~ (exists suffix, In suffix tag_suffixes
                       /\ version_form (Some "1") "1.2.4-gamma" suffix).
Proof.
  repeat split; try reflexivity.
  intros H. apply accepts_tagged_iff in H. discriminate.
Qed.

(** C2, amended: when the installed version carries a tag or the prerelease
    flag is set, the rule accepts every candidate that starts with
    [a.b.c], whatever follows the patch number (the pattern has no end
    anchor); otherwise it accepts the candidates that are exactly [a.b.c].
    In both cases the major component is the installed one unless the major
    flag is set.  With 1.2.3-beta installed and no flag, 1.2.4-beta
    qualifies. *)
Theorem candidateRegex_rule (E : Env) (argv : Argv) (cur m : string)
        (caps0 : captures) :
  js_match cur versionRegex = Some caps0 ->
  get_cap 1 caps0 = Some m ->
  let fixed := if major argv then None else Some m in
  let rule := candidateRegex argv (get_cap 1 caps0) (get_cap 2 caps0) in
  (get_cap 2 caps0 <> None \/ prerelease argv = true ->
   forall v, regex_test rule v = true
             <-> exists suffix, version_form fixed v suffix)
  /\ (get_cap 2 caps0 = None -> prerelease argv = false ->
      forall v, regex_test rule v = true <-> version_form fixed v "")
  /\ (forall l, selectLatest E argv (strs l) (Some cur)
                = Returned (last (map VStr (filter (regex_test rule) l))
                                 VUndefined))
  /\ js_match "1.2.3-beta" versionRegex = Some [(2, "beta"); (1, "1")]
  /\ regex_test (candidateRegex no_flags (Some "1") (Some "beta"))
                "1.2.4-beta" = true
  /\ selectLatest E no_flags (strs ["1.2.3-beta"; "1.2.4-beta"])
                  (Some "1.2.3-beta") = Returned (VStr "1.2.4-beta").
Proof.
  intros Hm H1 fixed rule.
  destruct (versionRegex_captures _ _ Hm) as (a & Ha & Hd & Ht).
  assert (a = m) by congruence. subst a.
  assert (Hrule : forall v,
             regex_test rule v
             = accepts fixed
                       (negb (truthy (get_cap 2 caps0) || prerelease argv)) v).
  { intros v. unfold rule. rewrite H1. now apply candidateRegex_accepts. }
  split; [|split; [|split; [|repeat split]]].
  - intros Hopen v. rewrite Hrule.
    assert (Hb : truthy (get_cap 2 caps0) || prerelease argv = true).
    { destruct Hopen as [H|H]; [|rewrite H; apply orb_true_r].
      destruct Ht as [Ht|Ht]; [contradiction|now rewrite Ht]. }
    rewrite Hb. apply accepts_prefix_iff.
  - intros Hnone Hflag v. rewrite Hrule, Hnone, Hflag.
    apply accepts_exact_iff.
  - intros l. now apply selectLatest_strs.
Qed.

Lemma candidateRegex_rule_witness :
  js_match "1.2.3-beta" versionRegex = Some [(2, "beta"); (1, "1")]
  /\ (regex_test (candidateRegex no_flags (Some "1") (Some "beta"))
                 "1.2.4-beta.1" = true
      <-> exists suffix, version_form (Some "1") "1.2.4-beta.1" suffix).
Proof.
  split; [reflexivity|].
  destruct (candidateRegex_rule garbled_env no_flags "1.2.3-beta" "1"
              [(2, "beta"); (1, "1")] eq_refl eq_refl) as [H _].
  apply H. left. discriminate.
Defined.

(** C4: [getLatestVersion] returns [null], and does not throw, when the
    package manager fails to run, when its output does not parse as JSON,
    and when the parsed payload has the type [error]. *)
Theorem getLatestVersion_unavailable (E : Env) (argv : Argv)
        (packager name : string) (cur : option string) (w : World E) :
  let cmd := info_command packager name in
  snd (execSync E cmd w) = None
  \/ (exists out, snd (execSync E cmd w) = Some out /\ JSON_parse E out = None)
  \/ (exists out fs, snd (execSync E cmd w) = Some out
                     /\ JSON_parse E out = Some (VObj fs)
                     /\ assoc "type" fs = Some (VStr "error")) ->
  getLatestVersion E argv packager name cur w
  = (fst (execSync E cmd w), [ExecSync cmd], Returned VNull).
Proof.
  intros cmd H. unfold getLatestVersion. fold cmd.
  destruct (execSync E cmd w) as [w1 out]. simpl in *.
  destruct H as [->|[(o & -> & ->)|(o & fs & -> & -> & Hty)]];
    try reflexivity.
  simpl. now rewrite Hty.
Qed.

Lemma getLatestVersion_unavailable_witness :
  getLatestVersion offline_env no_flags "npm" "quasar" (Some "1.2.3") tt
  = (tt, [ExecSync "npm info quasar versions --json"], Returned VNull)
  /\ getLatestVersion garbled_env no_flags "npm" "quasar" (Some "1.2.3") tt
     = (tt, [ExecSync "npm info quasar versions --json"], Returned VNull)
  /\ getLatestVersion failing_env no_flags "yarn" "quasar" None tt
     = (tt, [ExecSync "yarn info quasar versions --json"], Returned VNull).
Proof.
  split; [|split].
  - apply (getLatestVersion_unavailable offline_env no_flags "npm" "quasar"
             (Some "1.2.3") tt).
    left. reflexivity.
  - apply (getLatestVersion_unavailable garbled_env no_flags "npm" "quasar"
             (Some "1.2.3") tt).
    right. left. eexists. split; reflexivity.
  - apply (getLatestVersion_unavailable failing_env no_flags "yarn" "quasar"
             None tt).
    right. right. do 2 eexists. repeat split; reflexivity.
Defined.

(** ** The monad *)

Lemma bind_returned {E : Env} {A B : Type} (m : M E A) (f : A -> M E B)
      (w w1 : World E) (t1 : list event) (a : A) :
  m w = (w1, t1, Returned a) ->
  bind m f w = (fst (fst (f a w1)), (t1 ++ snd (fst (f a w1)))%list,
                snd (f a w1)).
Proof.
  intros H. unfold bind. rewrite H. now destruct (f a w1) as [[w2 t2] r].
Qed.

Lemma bind_thrown {E : Env} {A B : Type} (m : M E A) (f : A -> M E B)
      (w w1 : World E) (t1 : list event) (e : exn) :
  m w = (w1, t1, Thrown e) -> bind m f w = (w1, t1, Thrown e).
Proof. intros H. unfold bind. now rewrite H. Qed.

Lemma foldM_invariant {E : Env} {A S : Type} (f : A -> S -> M E S)
      (I : S -> Prop) (Q : event -> Prop) :
  (forall a s w w' t r,
      I s -> f a s w = (w', t, r) ->
      Forall Q t /\ forall s', r = Returned s' -> I s') ->
  forall l s w w' t r,
    I s -> foldM f l s w = (w', t, r) ->
    Forall Q t /\ forall s', r = Returned s' -> I s'.
Proof.
  intros Hf. induction l as [|a l IH]; intros s w w' t r Hs H; simpl in H.
  - unfold ret in H. inversion H; subst. split; [constructor|].
    intros s' H'. inversion H'; subst. exact Hs.
  - unfold bind in H. destruct (f a s w) as [[w1 t1] [s1|e]] eqn:Hstep.
    + destruct (Hf _ _ _ _ _ _ Hs Hstep) as [Ht1 Hs1].
      destruct (foldM f l s1 w1) as [[w2 t2] r2] eqn:Hrest.
      inversion H; subst.
      destruct (IH _ _ _ _ _ (Hs1 _ eq_refl) Hrest) as [Ht2 Hr2].
      split; [now apply Forall_app|exact Hr2].
    + destruct (Hf _ _ _ _ _ _ Hs Hstep) as [Ht1 _].
      inversion H; subst. split; [exact Ht1|discriminate].
Qed.

(** ** Strict equality *)

Lemma strict_eq_null (v : value) : strict_eq v VNull = true <-> v = VNull.
Proof. destruct v; simpl; split; congruence. Qed.

Lemma strict_eq_version (cur : option string) (v : value) :
  strict_eq (value_of_version cur) v = true <-> v = value_of_version cur.
Proof.
  destruct cur as [c|]; destruct v; simpl; split; try congruence.
  - intros H. apply String.eqb_eq in H. congruence.
  - intros H. inversion H. apply String.eqb_refl.
Qed.

(** ** The scan *)

Lemma getLatestVersion_trace (E : Env) (argv : Argv) (packager name : string)
      (cur : option string) (w : World E) :
  snd (fst (getLatestVersion E argv packager name cur w))
  = [ExecSync (info_command packager name)].
Proof.
  unfold getLatestVersion. now destruct (execSync E _ w).
Qed.

(** What one report does to the state, whatever the registry answers. *)
Lemma report_package_cases (E : Env) (argv : Argv) (packager : string)
      (type : dep_type) (name : string) (cur : option string)
      (st : scan_state) (w : World E) :
  exists t r,
    report_package E argv packager type name cur st w
    = (fst (fst (getLatestVersion E argv packager name cur w)), t, r)
    /\ Forall quiet t
    /\ match snd (getLatestVersion E argv packager name cur w) with
       | Thrown e => r = Thrown e
       | Returned latest =>
           if strict_eq latest VNull then r = Returned st
           else if strict_eq (value_of_version cur) latest
                then r = Returned st
                else r = Returned (push st type {| packageName := name;
                                                   latestVersion := latest |})
       end.
Proof.
  unfold report_package.
  pose proof (getLatestVersion_trace E argv packager name cur w) as Ht.
  destruct (getLatestVersion E argv packager name cur w) as [[w1 t1] [latest|e]] eqn:Hg;
    simpl in Ht; subst t1.
  - rewrite (bind_returned _ _ _ _ _ _ Hg). cbn [fst snd].
    destruct (strict_eq latest VNull).
    + do 2 eexists. split; [reflexivity|]. split; [|reflexivity].
      repeat constructor.
    + destruct (strict_eq (value_of_version cur) latest); cbn [negb].
      * do 2 eexists. split; [reflexivity|]. split; [|reflexivity].
        repeat constructor.
      * do 2 eexists. split; [reflexivity|]. split; [|reflexivity].
        repeat constructor.
  - rewrite (bind_thrown _ _ _ _ _ _ Hg). cbn [fst snd].
    do 2 eexists. split; [reflexivity|]. split; [|reflexivity].
    repeat constructor.
Qed.

(** X21: the report of a package appends an entry to the plan of the group
    exactly when [getLatestVersion] returned something other than [null]
    that differs from the installed version, [undefined] included;
    otherwise the state is left as it was.  A package that is not installed
    is compared through [null], so any answer other than [null] is appended
    for it. *)
Theorem plan_entry_iff (E : Env) (argv : Argv) (packager : string)
        (type : dep_type) (name : string) (cur : option string)
        (st : scan_state) (w w1 : World E) (t : list event) (latest : value) :
  getLatestVersion E argv packager name cur w = (w1, t, Returned latest) ->
  let entry := {| packageName := name; latestVersion := latest |} in
  let eligible := latest <> VNull /\ latest <> value_of_version cur in
  exists t' st',
    report_package E argv packager type name cur st w
    = (w1, t', Returned st')
    /\ (eligible ->
        st' = push st type entry
        /\ deps st' type = (deps st type ++ [entry])%list
        /\ updateAvailable st' = true)
    /\ (~ eligible -> st' = st)
    /\ (cur = None -> latest <> VNull -> eligible)
    /\ (is_quasar_package name = true -> getPackageJson E name w = None ->
        forall st0,
          scan_package E argv packager type name st0 w
          = report_package E argv packager type name None st0 w).
Proof.
  intros Hg entry eligible.
  destruct (report_package_cases E argv packager type name cur st w)
    as (t' & r & Hrun & _ & Hr).
  rewrite Hg in Hrun, Hr. cbn [fst snd] in Hrun, Hr.
  assert (Hpush : deps (push st type entry) type = (deps st type ++ [entry])%list
                  /\ updateAvailable (push st type entry) = true)
    by (destruct type; split; reflexivity).
  assert (Hmissing : cur = None -> latest <> VNull -> eligible).
  { intros -> Hn. split; [exact Hn|exact Hn]. }
  assert (Hscan : is_quasar_package name = true ->
                  getPackageJson E name w = None ->
                  forall st0,
                    scan_package E argv packager type name st0 w
                    = report_package E argv packager type name None st0 w).
  { intros Hq Hnone st0. unfold scan_package. rewrite Hq. cbn [negb].
    rewrite Hnone. unfold is_deprecated_app. cbn [truthy].
    now rewrite andb_false_r. }
  destruct (strict_eq latest VNull) eqn:Hn.
  { apply strict_eq_null in Hn. subst r. exists t', st.
    split; [exact Hrun|]. unfold eligible in *. repeat split; try tauto; try assumption. }
  assert (Hnn : latest <> VNull).
  { intros H. apply strict_eq_null in H. congruence. }
  destruct (strict_eq (value_of_version cur) latest) eqn:Hv; subst r.
  - apply strict_eq_version in Hv. exists t', st.
    split; [exact Hrun|]. unfold eligible in *. repeat split; try tauto; try assumption.
  - assert (Hd : latest <> value_of_version cur).
    { intros H. apply strict_eq_version in H. congruence. }
    exists t', (push st type entry). split; [exact Hrun|].
    unfold eligible in *. repeat split; try tauto; try assumption.
Qed.

Lemma plan_entry_iff_witness :
  exists t' st',
    report_package sample_project no_flags "npm" dependencies "quasar"
                   (Some "2.0.0") initial_state tt
    = (tt, t', Returned st')
    /\ deps st' dependencies
       = [{| packageName := "quasar"; latestVersion := VStr "2.1.0" |}].
Proof.
  destruct (plan_entry_iff sample_project no_flags "npm" dependencies "quasar"
              (Some "2.0.0") initial_state tt tt
              [ExecSync "npm info quasar versions --json"] (VStr "2.1.0")
              eq_refl) as (t' & st' & Hrun & Hadd & _).
  exists t', st'. split; [exact Hrun|].
  destruct Hadd as (_ & Hdeps & _); [split; discriminate|exact Hdeps].
Defined.

(** C5: a plan entry without a latest version.  [quasar] 3.0.0 is installed
    and the registry lists the releases 1.0.0, 2.0.0 and 2.1.0: no
    candidate passes the rule, [getLatestVersion] returns [undefined], and
    the scan reports that as an update and appends the package to the plan
    with the version [undefined]; the installing run then asks the package
    manager for [quasar@^undefined]. *)
Theorem undetermined_version_planned :
  getLatestVersion ahead_project install_flag "npm" "quasar" (Some "3.0.0") tt
  = (tt, [ExecSync "npm info quasar versions --json"], Returned VUndefined)
  /\ scan ahead_project install_flag "npm" ahead_pkg tt
     = (tt,
        [ExecSync "npm info quasar versions --json";
         ConsoleLog " quasar: 3.0.0 → undefined"],
        Returned
          {| deps_dependencies :=
               [{| packageName := "quasar"; latestVersion := VUndefined |}];
             deps_devDependencies := [];
             updateAvailable := true;
             removeDeprecatedAppPkg := false |})
  /\ In (Spawn "npm" ["install"; "--save"; "quasar@^undefined"] "/proj")
        (snd (fst (upgradeQuasar ahead_project install_flag "/proj"
                                 ahead_pkg tt))).
Proof.
  split; [reflexivity|]. split; [reflexivity|].
  vm_compute. repeat (try (left; reflexivity); right).
Qed.

Lemma stable_plans_flagged : stable plans_flagged.
Proof.
  intros st H. split; [exact H|]. intros type e _.
  destruct type; simpl; [left|right]; now destruct (_ st).
Qed.

Lemma stable_remove_flag : stable (fun st => removeDeprecatedAppPkg st = true).
Proof.
  intros st H. split; [reflexivity|]. intros type e. now destruct type.
Qed.

Lemma report_package_invariant (E : Env) (argv : Argv) (packager : string)
      (type : dep_type) (name : string) (cur : option string)
      (I : scan_state -> Prop) (st : scan_state) (w w' : World E)
      (t : list event) (r : result scan_state) :
  stable I -> I st ->
  report_package E argv packager type name cur st w = (w', t, r) ->
  Forall quiet t /\ forall st', r = Returned st' -> I st'.
Proof.
  intros HI Hst Hrun.
  destruct (report_package_cases E argv packager type name cur st w)
    as (t0 & r0 & Hrun0 & Hq & Hr).
  rewrite Hrun in Hrun0. inversion Hrun0; subst. split; [exact Hq|].
  intros st' ->.
  destruct (snd (getLatestVersion E argv packager name cur w)) as [latest|e];
    [|discriminate].
  destruct (strict_eq latest VNull); [inversion Hr; now subst|].
  destruct (strict_eq (value_of_version cur) latest); inversion Hr; subst; auto.
  now apply HI.
Qed.

Lemma scan_package_invariant (E : Env) (argv : Argv) (packager : string)
      (type : dep_type) (I : scan_state -> Prop) :
  stable I ->
  forall name st w w' t r,
    I st -> scan_package E argv packager type name st w = (w', t, r) ->
    Forall quiet t /\ forall st', r = Returned st' -> I st'.
Proof.
  intros HI name st w w' t r Hst. unfold scan_package.
  destruct (is_quasar_package name); cbn [negb].
  - destruct (is_deprecated_app name _);
      apply report_package_invariant; auto. now apply HI.
  - unfold ret. intros H; inversion H; subst. split; [constructor|].
    intros st' H'; inversion H'; now subst.
Qed.

Lemma scan_invariant (E : Env) (argv : Argv) (packager : string)
      (pkg : manifest) (I : scan_state -> Prop) (w w' : World E)
      (t : list event) (r : result scan_state) :
  stable I -> I initial_state ->
  scan E argv packager pkg w = (w', t, r) ->
  Forall quiet t /\ forall st', r = Returned st' -> I st'.
Proof.
  intros HI H0. unfold scan.
  apply (foldM_invariant (scan_group E argv packager pkg) I quiet); [|exact H0].
  intros type st w0 w0' t0 r0 Hst. unfold scan_group.
  apply (foldM_invariant (scan_package E argv packager type) I quiet);
    [|exact Hst].
  intros name. apply scan_package_invariant. exact HI.
Qed.

Lemma upgradeQuasar_run (E : Env) (argv : Argv) (root : string)
      (pkg : manifest) (w w1 : World E) (t : list event) (st : scan_state) :
  let packager := node_packager E root in
  scan E argv packager pkg w = (w1, t, Returned st) ->
  upgradeQuasar E argv root pkg w
  = (fst (fst (finish E argv root packager pkg st w1)),
     (header packager ++ t
        ++ snd (fst (finish E argv root packager pkg st w1)))%list,
     snd (finish E argv root packager pkg st w1)).
Proof.
  intros packager H. unfold upgradeQuasar, bind, console_log, logger_log.
  fold packager. rewrite H.
  now destruct (finish E argv root packager pkg st w1) as [[w2 t2] r2].
Qed.

Lemma contains_phrase :
  contains up_to_date_line "Congrats! All Quasar packages are up to date.".
Proof. exists "  ", nl. reflexivity. Qed.

Lemma quiet_header (packager : string) : Forall quiet (header packager).
Proof. repeat constructor. Qed.

(** C6: when the scan ends with both plans empty, the run logs the line
    holding the phrase [Congrats! All Quasar packages are up to date.] and
    returns, and its whole trace holds no install, no uninstall and no
    deletion. *)
Theorem up_to_date_run (E : Env) (argv : Argv) (root : string)
        (pkg : manifest) (w w1 : World E) (t : list event) (st : scan_state) :
  scan E argv (node_packager E root) pkg w = (w1, t, Returned st) ->
  deps st dependencies = [] ->
  deps st devDependencies = [] ->
  exists trace,
    upgradeQuasar E argv root pkg w = (w1, trace, Returned tt)
    /\ (exists line, In (ConsoleLog line) trace
                     /\ contains line
                          "Congrats! All Quasar packages are up to date.")
    /\ (forall e, In e trace ->
                  is_install_or_uninstall e = false /\ is_deletion e = false).
Proof.
  intros Hscan Hd Hdev.
  assert (H0 : plans_flagged initial_state) by discriminate.
  destruct (scan_invariant E argv _ pkg plans_flagged w w1 t _
              stable_plans_flagged H0 Hscan) as [Hq Hflag].
  assert (Hup : updateAvailable st = false).
  { destruct (updateAvailable st) eqn:Hu; [|reflexivity].
    destruct (Hflag st eq_refl Hu) as [H|H]; simpl in *; contradiction. }
  rewrite (upgradeQuasar_run _ _ _ _ _ _ _ _ Hscan).
  unfold finish. rewrite Hup. cbn [negb console_log fst snd].
  eexists. split; [reflexivity|]. split.
  - exists up_to_date_line. split; [|apply contains_phrase].
    apply in_or_app. right. apply in_or_app. right. now left.
  - intros e He. apply in_app_or in He as [He|He].
    + eapply Forall_forall in He; [|apply quiet_header]. exact He.
    + apply in_app_or in He as [He|[<-|[]]].
      * eapply Forall_forall in He; [|exact Hq]. exact He.
      * split; reflexivity.
Qed.

Lemma up_to_date_run_witness :
  exists trace,
    upgradeQuasar current_project install_flag "/proj" current_pkg tt
    = (tt, trace, Returned tt)
    /\ (exists line, In (ConsoleLog line) trace
                     /\ contains line
                          "Congrats! All Quasar packages are up to date.")
    /\ (forall e, In e trace ->
                  is_install_or_uninstall e = false /\ is_deletion e = false).
Proof.
  apply (up_to_date_run current_project install_flag "/proj" current_pkg tt tt
           [ExecSync "npm info quasar versions --json"] initial_state);
    reflexivity.
Defined.

(** [startsWith] sees the major component 3. *)
Lemma major_three (v : string) (m : captures) :
  js_match v versionRegex = Some m -> get_cap 1 m = Some "3" ->
  startsWith v "3." = true.
Proof.
  rewrite versionRegex_match.
  destruct (split_version v) as [[[[a b] c] r]|] eqn:Hs; [|discriminate].
  apply split_version_spec in Hs as (-> & _).
  destruct (tag_of (skip_dash r)); intros H; inversion H; subst; simpl;
    intros H1; inversion H1; subst; now destruct b.
Qed.

Lemma finish_removes_legacy (E : Env) (argv : Argv) (root packager : string)
      (pkg : manifest) (st : scan_state) (w1 : World E) :
  install argv = true ->
  updateAvailable st = true ->
  removeDeprecatedAppPkg st = true ->
  exists w2 rest r,
    finish E argv root packager pkg st w1
    = (w2, RemoveSync (legacy_path root) :: rest, r)
    /\ (snd (removeSync E (legacy_path root) w1) = true ->
        exists rest',
          rest = ConsoleLog ""
                   :: Spawn packager (uninstall_params packager) root :: rest')
    /\ (snd (removeSync E (legacy_path root) w1) = false ->
        rest = [] /\ r = Thrown ExternalFailure).
Proof.
  intros Hi Hu Hr. unfold finish. rewrite Hu, Hi, Hr. cbn [negb].
  fold (legacy_path root).
  unfold bind at 1. unfold bind at 1. unfold do_removeSync at 1.
  destruct (removeSync E (legacy_path root) w1) as [w2 [|]].
  - unfold bind at 1. unfold console_log at 1. unfold do_spawn at 1.
    destruct (spawn E packager (uninstall_params packager) root w2)
      as [w3 [|]].
    + destruct (bind _ _ w3) as [[w4 t4] r4].
      do 3 eexists. split; [reflexivity|].
      split; [intros _; eexists; reflexivity|discriminate].
    + do 3 eexists. split; [reflexivity|].
      split; [intros _; eexists; reflexivity|discriminate].
  - do 3 eexists. split; [reflexivity|]. split; [discriminate|auto].
Qed.

(** C7: when the scanned package is [@quasar/app] and [versionRegex] reads
    the major component 3 in its installed version, the rest of the
    iteration runs under the name [@quasar/app-webpack] with the removal
    flag set, and the flag is still set when the iteration returns.  In a
    run that installs with the flag set, the directory
    [node_modules/@quasar/app] of the project is removed and, unless that
    removal fails, the uninstall command is spawned next in the project
    root: [yarn remove @quasar/app] under yarn, and
    [uninstall --save--dev @quasar/app] under any other package manager;
    nothing before them in the run is an install, an uninstall or a
    deletion. *)
Theorem deprecated_app_migration (E : Env) (argv : Argv) (root : string)
        (pkg : manifest) (type : dep_type) :
  let packager := node_packager E root in
  (forall st w j caps0,
      getPackageJson E "@quasar/app" w = Some j ->
      js_match (version j) versionRegex = Some caps0 ->
      get_cap 1 caps0 = Some "3" ->
      scan_package E argv packager type "@quasar/app" st w
      = report_package E argv packager type "@quasar/app-webpack"
                       (Some (version j)) (set_remove st) w
      /\ forall w1 t st',
          scan_package E argv packager type "@quasar/app" st w
          = (w1, t, Returned st') ->
          removeDeprecatedAppPkg st' = true)
  /\ (forall w w1 t st,
         scan E argv packager pkg w = (w1, t, Returned st) ->
         install argv = true ->
         updateAvailable st = true ->
         removeDeprecatedAppPkg st = true ->
         exists w2 rest r,
           upgradeQuasar E argv root pkg w
           = (w2, (header packager ++ t
                     ++ RemoveSync [root; "node_modules/@quasar/app"]
                     :: rest)%list, r)
           /\ Forall quiet (header packager ++ t)%list
           /\ (snd (removeSync E [root; "node_modules/@quasar/app"] w1) = true ->
               exists params rest',
                 rest = ConsoleLog "" :: Spawn packager params root :: rest'
                 /\ (packager = "yarn" -> params = ["remove"; "@quasar/app"])
                 /\ (packager <> "yarn" ->
                     params = ["uninstall"; "--save--dev"; "@quasar/app"]))
           /\ (snd (removeSync E [root; "node_modules/@quasar/app"] w1) = false ->
               rest = [] /\ r = Thrown ExternalFailure)).
Proof.
  intros packager. split.
  - intros st w j caps0 Hj Hm H3.
    assert (Heq : scan_package E argv packager type "@quasar/app" st w
                  = report_package E argv packager type "@quasar/app-webpack"
                                   (Some (version j)) (set_remove st) w).
    { unfold scan_package. change (is_quasar_package "@quasar/app") with true.
      cbn [negb]. rewrite Hj. unfold is_deprecated_app.
      change ("@quasar/app" =? "@quasar/app") with true.
      rewrite (major_three _ _ Hm H3).
      assert (Ht : truthy (Some (version j)) = true).
      { pose proof (major_three _ _ Hm H3) as Hs.
        destruct (version j); [discriminate|reflexivity]. }
      rewrite Ht. reflexivity. }
    split; [exact Heq|].
    intros w1 t st' Hrun. rewrite Heq in Hrun.
    eapply (report_package_invariant E argv packager type _ _
              (fun s => removeDeprecatedAppPkg s = true));
      [apply stable_remove_flag| |exact Hrun|reflexivity].
    reflexivity.
  - intros w w1 t st Hscan Hi Hu Hr.
    rewrite (upgradeQuasar_run _ _ _ _ _ _ _ _ Hscan). fold packager.
    assert (Hq : Forall quiet (header packager ++ t)%list).
    { apply Forall_app. split; [apply quiet_header|].
      assert (Hs : stable (fun _ : scan_state => True)) by (intros s _; auto).
      now destruct (scan_invariant E argv packager pkg (fun _ => True) w w1 t _
                      Hs I Hscan). }
    destruct (finish_removes_legacy E argv root packager pkg st w1 Hi Hu Hr)
      as (w2 & rest & r & Hfin & Hok & Hfail).
    rewrite Hfin. cbn [fst snd]. exists w2, rest, r.
    split; [reflexivity|]. split; [exact Hq|]. split; [|exact Hfail].
    intros Hrm. destruct (Hok Hrm) as [rest' ->].
    exists (uninstall_params packager), rest'. split; [reflexivity|].
    unfold uninstall_params. split.
    + intros ->. reflexivity.
    + intros Hn. apply String.eqb_neq in Hn. now rewrite Hn.
Qed.

Lemma deprecated_app_migration_witness :
  scan_package sample_project install_flag "npm" devDependencies "@quasar/app"
               initial_state tt
  = report_package sample_project install_flag "npm" devDependencies
                   "@quasar/app-webpack" (Some "3.1.0")
                   (set_remove initial_state) tt
  /\ exists w2 rest r,
      upgradeQuasar sample_project install_flag "/proj" sample_pkg tt
      = (w2,
         (header "npm"
            ++ snd (fst (scan sample_project install_flag "npm" sample_pkg tt))
            ++ RemoveSync ["/proj"; "node_modules/@quasar/app"]
            :: ConsoleLog ""
            :: Spawn "npm" ["uninstall"; "--save--dev"; "@quasar/app"] "/proj"
            :: rest)%list, r).
Proof.
  destruct (deprecated_app_migration sample_project install_flag "/proj"
              sample_pkg devDependencies) as [Hstep Hrun].
  split.
  - destruct (Hstep initial_state tt {| version := "3.1.0" |} [(1, "3")]
                    eq_refl eq_refl eq_refl) as [Heq _].
    exact Heq.
  - destruct (Hrun tt tt
                   (snd (fst (scan sample_project install_flag "npm"
                                   sample_pkg tt)))
                   {| deps_dependencies :=
                        [{| packageName := "quasar";
                            latestVersion := VStr "2.1.0" |}];
                      deps_devDependencies :=
                        [{| packageName := "@quasar/app-webpack";
                            latestVersion := VStr "3.2.0" |}];
                      updateAvailable := true;
                      removeDeprecatedAppPkg := true |}
                   eq_refl eq_refl eq_refl eq_refl)
      as (w2 & rest & r & Heq & _ & Hok & _).
    destruct (Hok eq_refl) as (params & rest' & Hrest & _ & Hnpm).
    rewrite Hrest, Hnpm in Heq by discriminate.
    exists w2, rest', r. exact Heq.
Defined.

(** ** Installing *)

Lemma pinnedRegex_test (s : string) :
  regex_test pinnedRegex s = starts_with_digit s.
Proof.
  unfold regex_test, pinnedRegex, rseq. rewrite search_anchored.
  destruct s as [|c s]; simpl; [reflexivity|]. now destruct (is_digit c).
Qed.

Lemma install_arg_pinning (pkg : manifest) (dep : plan_entry) (range : string) :
  range_or_fallback pkg (packageName dep) = Returned range ->
  install_arg (regex_test pinnedRegex range) dep = pinning_arg pkg dep.
Proof.
  unfold range_or_fallback, pinning_arg, manifest_entry, install_arg.
  rewrite pinnedRegex_test.
  destruct (pkg_dependencies pkg) as [ds|]; [|discriminate].
  destruct (truthy_entry ds (packageName dep)) as [r|].
  - intros H; inversion H; subst. now destruct (starts_with_digit range).
  - destruct (pkg_devDependencies pkg) as [dd|]; [|discriminate].
    destruct (truthy_entry dd (packageName dep)) as [r|];
      intros H; inversion H; subst; [|reflexivity].
    now destruct (starts_with_digit range).
Qed.

Lemma add_dep_run (E : Env) (root : string) (pkg : manifest)
      (dep : plan_entry) (params : list string) (w : World E) :
  exists r,
    add_dep E root pkg dep params w
    = (fst (removeSync E [root; "node_modules"; packageName dep] w),
       [RemoveSync [root; "node_modules"; packageName dep]], r)
    /\ (forall p, r = Returned p -> p = (params ++ [pinning_arg pkg dep])%list)
    /\ (snd (removeSync E [root; "node_modules"; packageName dep] w) = true ->
        pkg_dependencies pkg <> None -> pkg_devDependencies pkg <> None ->
        r = Returned (params ++ [pinning_arg pkg dep])%list).
Proof.
  unfold add_dep, bind, do_removeSync, lift, ret.
  destruct (removeSync E _ w) as [w1 [|]]; cbn [fst snd].
  - destruct (range_or_fallback pkg (packageName dep)) as [range|e] eqn:Hr.
    + rewrite (install_arg_pinning _ _ _ Hr). eexists.
      split; [reflexivity|]. split; [intros p H; now inversion H|reflexivity].
    + eexists. split; [reflexivity|]. split; [discriminate|].
      intros _ Hd Hdd. exfalso. unfold range_or_fallback in Hr.
      destruct (pkg_dependencies pkg); [|contradiction].
      destruct (truthy_entry _ _); [discriminate|].
      destruct (pkg_devDependencies pkg); [discriminate|contradiction].
  - eexists. split; [reflexivity|]. split; discriminate.
Qed.

Lemma add_deps_run (E : Env) (root : string) (pkg : manifest)
      (l : list plan_entry) :
  forall (params : list string) (w : World E),
  exists w' t r,
    foldM (add_dep E root pkg) l params w = (w', t, r)
    /\ Forall (fun e => is_install_or_uninstall e = false) t
    /\ (forall p, r = Returned p -> p = (params ++ map (pinning_arg pkg) l)%list)
    /\ ((forall segs w0, snd (removeSync E segs w0) = true) ->
        pkg_dependencies pkg <> None -> pkg_devDependencies pkg <> None ->
        r = Returned (params ++ map (pinning_arg pkg) l)%list).
Proof.
  induction l as [|dep l IH]; intros params w; cbn [foldM map].
  - do 3 eexists. split; [reflexivity|]. rewrite app_nil_r.
    split; [constructor|]. split; [intros p H; now inversion H|reflexivity].
  - destruct (add_dep_run E root pkg dep params w) as (r1 & Hrun & Hp & Hok).
    unfold bind. rewrite Hrun.
    destruct r1 as [p1|e].
    + rewrite (Hp _ eq_refl).
      destruct (IH (params ++ [pinning_arg pkg dep])%list
                   (fst (removeSync E [root; "node_modules"; packageName dep] w)))
        as (w' & t & r & Hrest & Hq & Hp' & Hok').
      rewrite Hrest. do 3 eexists. split; [reflexivity|].
      rewrite <- app_assoc in Hp', Hok'.
      split; [|split; [exact Hp'|exact Hok']].
      constructor; [reflexivity|exact Hq].
    + do 3 eexists. split; [reflexivity|].
      split; [repeat constructor|].
      split; [discriminate|].
      intros Hrm Hd Hdd. specialize (Hok (Hrm _ _) Hd Hdd). discriminate.
Qed.

(** One group of the second loop: the removals, then one install with the
    arguments of the plan. *)
Lemma install_group_run (E : Env) (root packager : string) (pkg : manifest)
      (st : scan_state) (type : dep_type) (w : World E) :
  deps st type <> [] ->
  exists w' t r,
    install_group E root packager pkg st type tt w = (w', t, r)
    /\ (forall cmd params cwd,
           In (Spawn cmd params cwd) t ->
           cmd = packager /\ cwd = root
           /\ params = (install_params packager type
                          ++ map (pinning_arg pkg) (deps st type))%list)
    /\ (pkg_dependencies pkg <> None -> pkg_devDependencies pkg <> None ->
        (forall segs w0, snd (removeSync E segs w0) = true) ->
        In (Spawn packager
                  (install_params packager type
                     ++ map (pinning_arg pkg) (deps st type))%list root) t).
Proof.
  intros Hne. unfold install_group.
  destruct (deps st type) as [|d l] eqn:Hd; [contradiction|]. rewrite <- Hd.
  destruct (add_deps_run E root pkg (deps st type)
              (install_params packager type) w)
    as (w' & t & r & Hrun & Hq & Hp & Hok).
  unfold bind. rewrite Hrun. destruct r as [p|e].
  - rewrite (Hp _ eq_refl). unfold console_log, do_spawn.
    destruct (spawn E _ _ _ w') as [w2 b].
    exists w2, (t ++ [ConsoleLog ""]
                  ++ [Spawn packager
                            (install_params packager type
                               ++ map (pinning_arg pkg) (deps st type)) root])%list.
    exists (if b then Returned tt else Thrown ExternalFailure).
    split; [now destruct b|]. split.
    + intros cmd params cwd H. apply in_app_or in H as [H|[H|[H|[]]]].
      * eapply Forall_forall in H; [|exact Hq]. discriminate.
      * discriminate.
      * inversion H; subst. auto.
    + intros _ _ _. apply in_or_app. right. right. now left.
  - exists w', t, (Thrown e). split; [reflexivity|]. split.
    + intros cmd params cwd H.
      eapply Forall_forall in H; [|exact Hq]. discriminate.
    + intros Hd1 Hd2 Hrm. specialize (Hok Hrm Hd1 Hd2). discriminate.
Qed.

(** C8: the pin of a renamed package is lost.  With [quasar] pinned to
    2.0.0 and [@quasar/app] pinned to 3.1.0 in the manifest, the scan plans
    [quasar] and, in place of [@quasar/app], its successor
    [@quasar/app-webpack].  The installing run keeps the pin of [quasar]
    (it installs [quasar@2.1.0]) but installs the successor with a caret
    ([@quasar/app-webpack@^3.2.0]): the manifest is read under the name of
    the plan entry, which it does not have, so the fallback ["^"] decides
    instead of the entry ["3.1.0"]. *)
Theorem renamed_package_loses_pin :
  let run := upgradeQuasar sample_project install_flag "/proj" pinned_pkg tt in
  snd (scan sample_project install_flag "npm" pinned_pkg tt)
  = Returned
      {| deps_dependencies :=
           [{| packageName := "quasar"; latestVersion := VStr "2.1.0" |}];
         deps_devDependencies :=
           [{| packageName := "@quasar/app-webpack";
               latestVersion := VStr "3.2.0" |}];
         updateAvailable := true;
         removeDeprecatedAppPkg := true |}
  /\ range_or_fallback pinned_pkg "quasar" = Returned "2.0.0"
  /\ range_or_fallback pinned_pkg "@quasar/app" = Returned "3.1.0"
  /\ range_or_fallback pinned_pkg "@quasar/app-webpack" = Returned "^"
  /\ In (Spawn "npm" ["install"; "--save"; "quasar@2.1.0"] "/proj")
        (snd (fst run))
  /\ In (Spawn "npm" ["install"; "--save--dev"; "@quasar/app-webpack@^3.2.0"]
               "/proj")
        (snd (fst run))
  /\ snd run = Returned tt.
Proof.
  cbv zeta. repeat (split; [reflexivity|]).
  split; [|split; [|reflexivity]];
    vm_compute; repeat (try (left; reflexivity); right).
Qed.

(** ** The extension resolver *)

Lemma find_first_at {A : Type} (f : A -> bool) (l : list A) (x : A) :
  find f l = Some x <-> exists i, first_at f l i x.
Proof.
  unfold first_at. induction l as [|a l IH]; simpl.
  - split; [discriminate|]. intros [[|i] [H _]]; discriminate.
  - destruct (f a) eqn:Ha.
    + split.
      * intros H; inversion H; subst. exists 0. repeat split; auto.
        intros j y Hj. lia.
      * intros [[|i] (Hn & Hx & Hlt)]; [simpl in Hn; congruence|].
        specialize (Hlt 0 a (Nat.lt_0_succ _) eq_refl). congruence.
    + rewrite IH. split.
      * intros [i (Hn & Hx & Hlt)]. exists (S i). repeat split; auto.
        intros [|j] y Hj Hy; simpl in Hy; [congruence|].
        apply (Hlt j); [lia|exact Hy].
      * intros [[|i] (Hn & Hx & Hlt)]; [simpl in Hn; congruence|].
        exists i. repeat split; auto.
        intros j y Hj Hy. apply (Hlt (S j)); [lia|exact Hy].
Qed.

Lemma find_none_iff {A : Type} (f : A -> bool) (l : list A) :
  find f l = None <-> forall x, In x l -> f x = false.
Proof.
  induction l as [|a l IH]; simpl.
  - split; [intros _ x []|reflexivity].
  - destruct (f a) eqn:Ha.
    + split; [discriminate|]. intros H. specialize (H a (or_introl eq_refl)).
      congruence.
    + rewrite IH. split.
      * intros H x [<-|Hx]; auto.
      * intros H x Hx. apply H. now right.
Qed.

Section Resolver.

(** The file system, as [fs.existsSync] sees it. *)
Variable existsSync : string -> bool.

Lemma resolve_in_find (exts : list string) (file : string) :
  resolve_in existsSync exts file
  = find existsSync (map (append file) exts).
Proof.
  induction exts as [|ext exts IH]; simpl; [reflexivity|].
  rewrite IH. now destruct (existsSync (file ++ ext)).
Qed.

Lemma resolveExtension_find (p : string) :
  resolveExtension existsSync p = find existsSync (candidates p).
Proof.
  unfold resolveExtension. rewrite resolve_in_find.
  unfold candidates, extensions. cbn [map]. now rewrite append_nil_r.
Qed.

(** C9: [resolveExtension] returns the first of [p], [p.js], [p.ts],
    [p.jsx], [p.tsx], in that order, that exists, and [undefined] when none
    does; when [p] itself exists it is returned as it is, whatever else
    exists. *)
Theorem resolveExtension_first_existing (p : string) :
  (forall e, resolveExtension existsSync p = Some e
             <-> exists i, first_at existsSync (candidates p) i e)
  /\ (resolveExtension existsSync p = None
      <-> forall c, In c (candidates p) -> existsSync c = false)
  /\ (existsSync p = true -> resolveExtension existsSync p = Some p).
Proof.
  rewrite resolveExtension_find. split; [|split].
  - intros e. apply find_first_at.
  - apply find_none_iff.
  - intros H. unfold candidates. simpl. now rewrite H.
Qed.

End Resolver.

Lemma resolveExtension_first_existing_witness :
  sample_fs "src/App" = true
  /\ sample_fs "src/App.js" = true
  /\ resolveExtension sample_fs "src/App" = Some "src/App".
Proof.
  split; [reflexivity|]. split; [reflexivity|].
  destruct (resolveExtension_first_existing sample_fs "src/App")
    as (_ & _ & H).
  apply H. reflexivity.
Defined.

(** ** An installed version that [versionRegex] does not match *)

Lemma strict_eq_error (v : value) :
  strict_eq v (VStr "error") = true <-> v = VStr "error".
Proof.
  destruct v; simpl; split; try congruence.
  - intros H. apply String.eqb_eq in H. congruence.
  - intros H. now inversion H.
Qed.

(** C10 as stated does not hold: with the version [latest], which
    [versionRegex] does not match, and a package manager that fails to run,
    [getLatestVersion] returns [null]. *)
Lemma unparsed_version_counterexample :
  js_match "latest" versionRegex = None
  /\ getLatestVersion offline_env no_flags "npm" "quasar" (Some "latest") tt
     = (tt, [ExecSync "npm info quasar versions --json"], Returned VNull).
Proof. split; reflexivity. Qed.

(** C10, amended: for an installed version that [versionRegex] does not
    match, such as [latest] or the empty string, the part of
    [getLatestVersion] that selects a version always throws a TypeError, so
    the function never returns a version: it throws once the registry has
    answered with a payload that is not an error envelope, and it returns
    [null] only through the earlier exits. *)
Theorem getLatestVersion_unparsed_version (E : Env) (argv : Argv)
        (packager name cur : string) (w : World E) :
  js_match cur versionRegex = None ->
  let cmd := info_command packager name in
  let r := snd (getLatestVersion E argv packager name (Some cur) w) in
  (forall versions, selectLatest E argv versions (Some cur) = Thrown TypeError)
  /\ (r = Returned VNull \/ r = Thrown TypeError)
  /\ (forall out payload,
         snd (execSync E cmd w) = Some out ->
         JSON_parse E out = Some payload ->
         get_field payload "type" <> Returned (VStr "error") ->
         r = Thrown TypeError)
  /\ js_match "latest" versionRegex = None
  /\ js_match "" versionRegex = None.
Proof.
  intros Hm cmd r.
  assert (Hsel : forall versions,
             selectLatest E argv versions (Some cur) = Thrown TypeError).
  { intros versions. unfold selectLatest. now rewrite Hm. }
  assert (Hr : r = match snd (execSync E cmd w) with
                   | None => Returned VNull
                   | Some out =>
                       match JSON_parse E out with
                       | None => Returned VNull
                       | Some payload =>
                           match get_field payload "type" with
                           | Thrown e => Thrown TypeError
                           | Returned ty =>
                               if strict_eq ty (VStr "error")
                               then Returned VNull else Thrown TypeError
                           end
                       end
                   end).
  { subst r. unfold getLatestVersion. fold cmd.
    destruct (execSync E cmd w) as [w1 [out|]]; cbn [fst snd]; [|reflexivity].
    destruct (JSON_parse E out) as [payload|]; [|reflexivity].
    destruct payload; cbn [get_field]; try reflexivity;
      try (destruct (strict_eq _ _); [reflexivity|];
           destruct (packager =? "yarn"); cbn [get_field]; now rewrite Hsel). }
  repeat split; try reflexivity; try exact Hsel.
  - rewrite Hr. destruct (snd (execSync E cmd w)) as [out|]; [|now left].
    destruct (JSON_parse E out) as [payload|]; [|now left].
    destruct (get_field payload "type") as [ty|e]; [|now right].
    destruct (strict_eq ty (VStr "error")); [now left|now right].
  - intros out payload Hout Hp Hty. rewrite Hr, Hout, Hp.
    destruct (get_field payload "type") as [ty|e]; [|reflexivity].
    destruct (strict_eq ty (VStr "error")) eqn:He; [|reflexivity].
    apply strict_eq_error in He. congruence.
Qed.

Lemma getLatestVersion_unparsed_version_witness :
  js_match "latest" versionRegex = None
  /\ selectLatest sample_project no_flags (strs ["1.0.0"]) (Some "latest")
     = Thrown TypeError
  /\ snd (getLatestVersion sample_project no_flags "npm" "quasar"
                           (Some "latest") tt)
     = Thrown TypeError.
Proof.
  split; [reflexivity|].
  destruct (getLatestVersion_unparsed_version sample_project no_flags "npm"
              "quasar" "latest" tt eq_refl) as (Hsel & _ & Hrun & _).
  split; [apply Hsel|].
  apply (Hrun "npm info quasar versions --json"
              (strs ["1.0.0"; "2.0.0"; "2.1.0"])); try reflexivity.
  discriminate.
Defined.

(** * Further properties *)

(** ** The registry payload *)

(** What [getLatestVersion] does once the payload is parsed. *)
Lemma getLatestVersion_parsed (E : Env) (argv : Argv)
      (packager name : string) (cur : option string) (w : World E)
      (out : string) (payload : value) :
  snd (execSync E (info_command packager name) w) = Some out ->
  JSON_parse E out = Some payload ->
  snd (getLatestVersion E argv packager name cur w)
  = match get_field payload "type" with
    | Thrown e => Thrown e
    | Returned ty =>
        if strict_eq ty (VStr "error") then Returned VNull
        else
          match (if String.eqb packager "yarn"
                 then get_field payload "data"
                 else Returned payload) with
          | Thrown e => Thrown e
          | Returned versions => selectLatest E argv versions cur
          end
    end.
Proof.
  intros Hout Hp. unfold getLatestVersion.
  destruct (execSync E (info_command packager name) w) as [w1 o].
  simpl in Hout. subst o. cbn [snd]. now rewrite Hp.
Qed.

Lemma field_not_error (fs : list (string * value)) :
  assoc "type" fs <> Some (VStr "error") ->
  strict_eq (match assoc "type" fs with Some x => x | None => VUndefined end)
            (VStr "error") = false.
Proof.
  intros H. destruct (strict_eq _ _) eqn:He; [|reflexivity].
  apply strict_eq_error in He.
  destruct (assoc "type" fs); [congruence|discriminate].
Qed.

(** X1: yarn wraps the list of versions in the [data] field of an object,
    npm answers with the bare list; [getLatestVersion] selects from the same
    list in both cases. *)
Theorem yarn_payload_unwrapped (E : Env) (argv : Argv) (name : string)
        (cur : option string) (w : World E) (l : list value) :
  (forall out fs,
      snd (execSync E (info_command "yarn" name) w) = Some out ->
      JSON_parse E out = Some (VObj fs) ->
      assoc "type" fs <> Some (VStr "error") ->
      assoc "data" fs = Some (VArr l) ->
      snd (getLatestVersion E argv "yarn" name cur w)
      = selectLatest E argv (VArr l) cur)
  /\ (forall packager out,
         packager <> "yarn" ->
         snd (execSync E (info_command packager name) w) = Some out ->
         JSON_parse E out = Some (VArr l) ->
         snd (getLatestVersion E argv packager name cur w)
         = selectLatest E argv (VArr l) cur).
Proof.
  split.
  - intros out fs Hout Hp Hty Hdata.
    rewrite (getLatestVersion_parsed _ _ _ _ _ _ _ _ Hout Hp).
    cbn [get_field]. rewrite (field_not_error _ Hty).
    change ("yarn" =? "yarn") with true. cbv iota. now rewrite Hdata.
  - intros packager out Hn Hout Hp.
    rewrite (getLatestVersion_parsed _ _ _ _ _ _ _ _ Hout Hp).
    cbn [get_field strict_eq]. apply String.eqb_neq in Hn. now rewrite Hn.
Qed.

Lemma yarn_payload_unwrapped_witness :
  snd (getLatestVersion yarn_project no_flags "yarn" "quasar" (Some "2.0.0") tt)
  = selectLatest yarn_project no_flags (strs ["1.0.0"; "2.0.0"; "2.1.0"])
                 (Some "2.0.0")
  /\ snd (getLatestVersion yarn_project no_flags "npm" "quasar"
                           (Some "2.0.0") tt)
     = selectLatest yarn_project no_flags (strs ["1.0.0"; "2.0.0"; "2.1.0"])
                    (Some "2.0.0").
Proof.
  destruct (yarn_payload_unwrapped yarn_project no_flags "quasar"
              (Some "2.0.0") tt
              (map VStr ["1.0.0"; "2.0.0"; "2.1.0"])) as [Hyarn Hnpm].
  split.
  - apply (Hyarn "yarn info quasar versions --json"
                 [("type", VStr "inspect");
                  ("data", strs ["1.0.0"; "2.0.0"; "2.1.0"])]);
      try reflexivity.
    discriminate.
  - apply (Hnpm "npm" "npm info quasar versions --json"); try reflexivity.
    discriminate.
Defined.

(** X2: output that parses, but to [null], is not caught: reading its
    [type] throws a TypeError out of [getLatestVersion]. *)
Theorem null_payload_throws (E : Env) (argv : Argv) (packager name : string)
        (cur : option string) (w : World E) (out : string) :
  snd (execSync E (info_command packager name) w) = Some out ->
  JSON_parse E out = Some VNull ->
  snd (getLatestVersion E argv packager name cur w) = Thrown TypeError.
Proof.
  intros Hout Hp. now rewrite (getLatestVersion_parsed _ _ _ _ _ _ _ _ Hout Hp).
Qed.

Lemma null_payload_throws_witness :
  snd (getLatestVersion yarn_project no_flags "npm" "quasar-null" None tt)
  = Thrown TypeError.
Proof.
  apply (null_payload_throws yarn_project no_flags "npm" "quasar-null" None tt
           "npm info quasar-null versions --json"); reflexivity.
Defined.

Lemma selectLatest_undefined (E : Env) (argv : Argv) (cur : option string)
      (v : value) :
  v = VUndefined \/ v = VNull ->
  selectLatest E argv v cur = Thrown TypeError.
Proof.
  intros Hv. unfold selectLatest. destruct cur as [c|].
  - destruct (js_match c versionRegex); [|reflexivity].
    destruct Hv as [-> | ->]; reflexivity.
  - destruct Hv as [-> | ->]; reflexivity.
Qed.

(** X3: with yarn, an answer that is an object without a usable [data]
    field (absent or [null]) and that is not an error envelope makes
    [getLatestVersion] throw a TypeError, whatever is installed. *)
Theorem yarn_payload_without_data (E : Env) (argv : Argv) (name : string)
        (cur : option string) (w : World E) (out : string)
        (fs : list (string * value)) :
  snd (execSync E (info_command "yarn" name) w) = Some out ->
  JSON_parse E out = Some (VObj fs) ->
  assoc "type" fs <> Some (VStr "error") ->
  assoc "data" fs = None \/ assoc "data" fs = Some VNull ->
  snd (getLatestVersion E argv "yarn" name cur w) = Thrown TypeError.
Proof.
  intros Hout Hp Hty Hdata.
  rewrite (getLatestVersion_parsed _ _ _ _ _ _ _ _ Hout Hp).
  cbn [get_field]. rewrite (field_not_error _ Hty).
  change ("yarn" =? "yarn") with true. cbv iota.
  apply selectLatest_undefined.
  destruct Hdata as [-> | ->]; auto.
Qed.

Lemma yarn_payload_without_data_witness :
  snd (getLatestVersion yarn_project no_flags "yarn" "@quasar/extras"
                        (Some "1.0.0") tt)
  = Thrown TypeError.
Proof.
  apply (yarn_payload_without_data yarn_project no_flags "@quasar/extras"
           (Some "1.0.0") tt "yarn info @quasar/extras versions --json"
           [("type", VStr "inspect")]); try reflexivity.
  - discriminate.
  - left. reflexivity.
Defined.

Lemma last_byte_append (s : string) (c : ascii) :
  last_byte (s ++ String c "") = Some c.
Proof.
  induction s as [|d s IH]; [reflexivity|].
  simpl. rewrite IH. now destruct (s ++ String c "").
Qed.

(** X4: when the package manager other than yarn answers with a single
    string instead of a list, [getLatestVersion] throws a TypeError for an
    installed package (a string has no [filter]); for a package that is
    not installed it returns the last character of that string when that
    character is ASCII, the last code unit of the string when it is not,
    and [undefined] when the string is empty. *)
Theorem string_payload (E : Env) (argv : Argv) (packager name : string)
        (w : World E) (out s : string) :
  packager <> "yarn" ->
  snd (execSync E (info_command packager name) w) = Some out ->
  JSON_parse E out = Some (VStr s) ->
  (forall cur,
      snd (getLatestVersion E argv packager name (Some cur) w)
      = Thrown TypeError)
  /\ (forall s' c,
         s = s' ++ String c "" ->
         is_ascii c = true ->
         snd (getLatestVersion E argv packager name None w)
         = Returned (VStr (String c "")))
  /\ (forall s' c,
         s = s' ++ String c "" ->
         is_ascii c = false ->
         snd (getLatestVersion E argv packager name None w)
         = Returned (string_index_last E s))
  /\ (s = "" ->
      snd (getLatestVersion E argv packager name None w)
      = Returned VUndefined).
Proof.
  intros Hn Hout Hp. apply String.eqb_neq in Hn.
  assert (Hrun : forall cur,
             snd (getLatestVersion E argv packager name cur w)
             = selectLatest E argv (VStr s) cur).
  { intros cur. rewrite (getLatestVersion_parsed _ _ _ _ _ _ _ _ Hout Hp).
    cbn [get_field strict_eq]. now rewrite Hn. }
  split; [|split; [|split]].
  - intros cur. rewrite Hrun. unfold selectLatest.
    now destruct (js_match cur versionRegex).
  - intros s' c -> Hc. rewrite Hrun. cbn [selectLatest index_last].
    now rewrite last_byte_append, Hc.
  - intros s' c -> Hc. rewrite Hrun. cbn [selectLatest index_last].
    now rewrite last_byte_append, Hc.
  - intros ->. now rewrite Hrun.
Qed.

Lemma string_payload_witness :
  snd (getLatestVersion yarn_project no_flags "npm" "vue" (Some "3.0.0") tt)
  = Thrown TypeError
  /\ snd (getLatestVersion yarn_project no_flags "npm" "vue" None tt)
     = Returned (VStr "0").
Proof.
  destruct (string_payload yarn_project no_flags "npm" "vue" tt
              "npm info vue versions --json" "3.0.0")
    as (Hinstalled & Hmissing & _); try reflexivity.
  - discriminate.
  - split; [apply Hinstalled|].
    apply (Hmissing "3.0." "0"%char); reflexivity.
Defined.

(** ** The matching rule *)

Lemma accepts_widen (fixed : option string) (exact exact' : bool)
      (widen_major : bool) (v : string) :
  (exact' = true -> exact = true) ->
  accepts fixed exact v = true ->
  accepts (if widen_major then None else fixed) exact' v = true.
Proof.
  unfold accepts. intros He.
  destruct (split_version v) as [[[[a b] c] r]|]; [|discriminate].
  intros H. apply andb_prop in H as [Hm Hx]. apply andb_true_intro. split.
  - now destruct widen_major.
  - destruct exact'; [|reflexivity]. now rewrite (He eq_refl) in Hx.
Qed.

(** X5: the flags only widen the rule: a candidate that qualifies still
    qualifies once the prerelease flag, the major flag or both are added. *)
Theorem flags_widen_rule (argv argv' : Argv) (cur : string)
        (caps0 : captures) (v : string) :
  js_match cur versionRegex = Some caps0 ->
  (prerelease argv = true -> prerelease argv' = true) ->
  (major argv = true -> major argv' = true) ->
  regex_test (candidateRegex argv (get_cap 1 caps0) (get_cap 2 caps0)) v
  = true ->
  regex_test (candidateRegex argv' (get_cap 1 caps0) (get_cap 2 caps0)) v
  = true.
Proof.
  intros Hm Hp Hmaj.
  destruct (versionRegex_captures _ _ Hm) as (a & Ha & Hd & _).
  rewrite Ha, !candidateRegex_accepts by exact Hd.
  intros H.
  destruct (major argv) eqn:H1.
  - rewrite (Hmaj eq_refl).
    apply (accepts_widen None _ _ false) with (2 := H).
    destruct (truthy (get_cap 2 caps0)); [discriminate|]. cbn [orb negb].
    destruct (prerelease argv); [now rewrite Hp|].
    reflexivity.
  - assert (Hw : accepts (if major argv' then None else Some a)
                         (negb (truthy (get_cap 2 caps0) || prerelease argv'))
                         v = true).
    { apply (accepts_widen (Some a) _ _ (major argv')) with (2 := H).
      destruct (truthy (get_cap 2 caps0)); [discriminate|]. cbn [orb negb].
      destruct (prerelease argv); [now rewrite Hp|]. reflexivity. }
    exact Hw.
Qed.

Lemma flags_widen_rule_witness :
  regex_test (candidateRegex no_flags (Some "1") None) "1.4.0" = true
  /\ regex_test (candidateRegex major_flag (Some "1") None) "1.4.0" = true.
Proof.
  split; [reflexivity|].
  apply (flags_widen_rule no_flags major_flag "1.2.3" [(1, "1")] "1.4.0");
    try reflexivity; discriminate.
Defined.

Lemma last_strs_in (l : list string) (v : string) :
  last (map VStr l) VUndefined = VStr v -> In v l.
Proof.
  induction l as [|x l IH]; [discriminate|].
  destruct l as [|y l].
  - simpl. intros H. inversion H. now left.
  - intros H. right. apply IH. exact H.
Qed.

Lemma accepts_major (m : string) (exact : bool) (v : string) :
  accepts (Some m) exact v = true -> exists r, v = m ++ "." ++ r.
Proof.
  unfold accepts.
  destruct (split_version v) as [[[[a b] c] r]|] eqn:Hs; [|discriminate].
  intros H. apply andb_prop in H as [Hm _]. apply String.eqb_eq in Hm.
  apply split_version_spec in Hs as (-> & _). subst a. eauto.
Qed.

(** X6: the version that [selectLatest] returns for an installed package
    is one of the candidates and qualifies under the rule; without the
    major flag it starts with the installed major component and a dot. *)
Theorem selected_version_keeps_major (E : Env) (argv : Argv) (cur m : string)
        (caps0 : captures) (l : list string) (v : string) :
  js_match cur versionRegex = Some caps0 ->
  get_cap 1 caps0 = Some m ->
  selectLatest E argv (strs l) (Some cur) = Returned (VStr v) ->
  In v l
  /\ regex_test (candidateRegex argv (get_cap 1 caps0) (get_cap 2 caps0)) v
     = true
  /\ (major argv = false -> exists r, v = m ++ "." ++ r).
Proof.
  intros Hm H1 Hsel.
  rewrite (selectLatest_strs _ _ _ _ _ Hm) in Hsel. inversion Hsel as [Hlast].
  apply last_strs_in in Hlast. apply filter_In in Hlast as [Hin Hrule].
  split; [exact Hin|]. split; [exact Hrule|].
  intros Hmaj.
  destruct (versionRegex_captures _ _ Hm) as (a & Ha & Hd & _).
  assert (a = m) by congruence. subst a.
  rewrite H1, candidateRegex_accepts, Hmaj in Hrule by exact Hd.
  now apply accepts_major in Hrule.
Qed.

Lemma selected_version_keeps_major_witness :
  In "1.2.4" ["1.2.2"; "1.2.3"; "1.2.4"; "2.0.0"]
  /\ exists r, "1.2.4" = "1" ++ "." ++ r.
Proof.
  destruct (selected_version_keeps_major garbled_env no_flags "1.2.3" "1"
              [(1, "1")] ["1.2.2"; "1.2.3"; "1.2.4"; "2.0.0"] "1.2.4"
              eq_refl eq_refl eq_refl) as (Hin & _ & Hmaj).
  split; [exact Hin|]. apply Hmaj. reflexivity.
Defined.

(** X7: the installed version qualifies under its own rule exactly when it
    carries a tag, or the prerelease flag is set, or nothing follows its
    patch number; an installed 1.2.3-foo, for one, is rejected by the rule
    built from it. *)
Theorem installed_version_qualifies (argv : Argv) (cur : string)
        (caps0 : captures) (a b c suffix : string) :
  js_match cur versionRegex = Some caps0 ->
  split_version cur = Some (a, b, c, suffix) ->
  (regex_test (candidateRegex argv (get_cap 1 caps0) (get_cap 2 caps0)) cur
   = true
   <-> get_cap 2 caps0 <> None \/ prerelease argv = true \/ suffix = "")
  /\ regex_test (candidateRegex no_flags (Some "1") None) "1.2.3-foo" = false.
Proof.
  intros Hm Hs. split; [|reflexivity].
  destruct (versionRegex_captures _ _ Hm) as (a' & Ha & Hd & Ht).
  assert (a' = a).
  { rewrite versionRegex_match, Hs in Hm.
    destruct (tag_of (skip_dash suffix)); inversion Hm; subst;
      simpl in Ha; congruence. }
  subst a'. rewrite Ha, candidateRegex_accepts by exact Hd.
  unfold accepts. rewrite Hs.
  assert (Hok : major_ok (if major argv then None else Some a) a = true).
  { destruct (major argv); [reflexivity|apply String.eqb_refl]. }
  rewrite Hok. cbn [andb].
  destruct Ht as [Ht|Ht]; rewrite Ht.
  - cbn [truthy orb]. destruct (prerelease argv); cbn [negb].
    + split; auto.
    + destruct suffix; simpl; split; auto; try discriminate.
      intros [H|[H|H]]; congruence.
  - cbn [orb negb]. split; [intros _; left|reflexivity].
    intros Hn. rewrite Hn in Ht. discriminate.
Qed.

Lemma installed_version_qualifies_witness :
  regex_test (candidateRegex no_flags (Some "1") (Some "beta")) "1.2.3-beta.4"
  = true
  <-> Some "beta" <> None \/ prerelease no_flags = true \/ "-beta.4" = "".
Proof.
  destruct (installed_version_qualifies no_flags "1.2.3-beta.4"
              [(2, "beta"); (1, "1")] "1" "2" "3" "-beta.4"
              eq_refl eq_refl) as [H _].
  exact H.
Defined.

(** ** The scan *)

(** A fold keeps what each step keeps for the elements it visits. *)
Lemma foldM_invariant_in {E : Env} {A S : Type} (f : A -> S -> M E S)
      (I : S -> Prop) (Q : event -> Prop) (l : list A) :
  (forall a s w w' t r,
      In a l -> I s -> f a s w = (w', t, r) ->
      Forall Q t /\ forall s', r = Returned s' -> I s') ->
  forall s w w' t r,
    I s -> foldM f l s w = (w', t, r) ->
    Forall Q t /\ forall s', r = Returned s' -> I s'.
Proof.
  induction l as [|a l IH]; intros Hf s w w' t r Hs H; simpl in H.
  - unfold ret in H. inversion H; subst. split; [constructor|].
    intros s' H'. inversion H'; subst. exact Hs.
  - unfold bind in H. destruct (f a s w) as [[w1 t1] [s1|e]] eqn:Hstep.
    + destruct (Hf _ _ _ _ _ _ (or_introl eq_refl) Hs Hstep) as [Ht1 Hs1].
      destruct (foldM f l s1 w1) as [[w2 t2] r2] eqn:Hrest.
      inversion H; subst.
      assert (Hf' : forall a0 s0 w0 w0' t0 r0,
                 In a0 l -> I s0 -> f a0 s0 w0 = (w0', t0, r0) ->
                 Forall Q t0 /\ forall s', r0 = Returned s' -> I s').
      { intros a0 s0 w0 w0' t0 r0 Hin. apply Hf. now right. }
      destruct (IH Hf' _ _ _ _ _ (Hs1 _ eq_refl) Hrest) as [Ht2 Hr2].
      split; [now apply Forall_app|exact Hr2].
    + destruct (Hf _ _ _ _ _ _ (or_introl eq_refl) Hs Hstep) as [Ht1 _].
      inversion H; subst. split; [exact Ht1|discriminate].
Qed.

(** What one report emits and returns, in full. *)
Lemma report_package_run (E : Env) (argv : Argv) (packager : string)
      (type : dep_type) (name : string) (cur : option string)
      (st : scan_state) (w : World E) :
  exists w' logs r,
    report_package E argv packager type name cur st w
    = (w', ExecSync (info_command packager name) :: map ConsoleLog logs, r)
    /\ forall st',
        r = Returned st' ->
        st' = st
        \/ exists latest,
            latest <> VNull
            /\ st' = push st type {| packageName := name;
                                     latestVersion := latest |}.
Proof.
  unfold report_package.
  pose proof (getLatestVersion_trace E argv packager name cur w) as Ht.
  destruct (getLatestVersion E argv packager name cur w)
    as [[w1 t1] [latest|e]] eqn:Hg; simpl in Ht; subst t1.
  - rewrite (bind_returned _ _ _ _ _ _ Hg). cbn [fst snd].
    destruct (strict_eq latest VNull) eqn:Hn.
    + exists w1, [skipping_line E name
                    match cur with None => red E "Missing!" | Some v => v end;
                  skipping_reason], (Returned st).
      split; [reflexivity|]. intros st' H. inversion H. now left.
    + destruct (strict_eq (value_of_version cur) latest); cbn [negb].
      * exists w1, [], (Returned st).
        split; [reflexivity|]. intros st' H. inversion H. now left.
      * exists w1, [update_line E name
                      match cur with None => red E "Missing!" | Some v => v end
                      latest],
          (Returned (push st type {| packageName := name;
                                     latestVersion := latest |})).
        split; [reflexivity|]. intros st' H. inversion H. right.
        exists latest. split; [|reflexivity].
        intros ->. discriminate.
  - rewrite (bind_thrown _ _ _ _ _ _ Hg).
    exists w1, [], (Thrown e). split; [reflexivity|]. discriminate.
Qed.

Lemma deps_push (st : scan_state) (type type' : dep_type) (e x : plan_entry) :
  In x (deps (push st type e) type') ->
  In x (deps st type') \/ (type' = type /\ x = e).
Proof.
  destruct type, type'; simpl; intros H;
    try (apply in_app_or in H as [H|[H|[]]]); auto.
Qed.

Lemma deps_push_nonempty (st : scan_state) (type : dep_type) (e : plan_entry) :
  deps (push st type e) type <> [].
Proof.
  destruct type; simpl; now destruct (_ st).
Qed.

Lemma scan_ok_push (pkg : manifest) (st : scan_state) (type : dep_type)
      (e : plan_entry) :
  scan_ok pkg st ->
  is_quasar_package (packageName e) = true ->
  declared pkg type (packageName e) ->
  latestVersion e <> VNull ->
  scan_ok pkg (push st type e).
Proof.
  intros (Hplan & Hflag & Hup) Hq Hd Hl. split; [|split].
  - intros type' x Hx. apply deps_push in Hx as [Hx|[-> ->]]; auto.
  - destruct type; exact Hflag.
  - split.
    + intros _. exists type. apply deps_push_nonempty.
    + intros _. now destruct type.
Qed.

Lemma scan_ok_remove (pkg : manifest) (st : scan_state) (type : dep_type) :
  scan_ok pkg st ->
  In "@quasar/app" (group_keys pkg type) ->
  scan_ok pkg (set_remove st).
Proof.
  intros (Hplan & Hflag & Hup) Hin. split; [|split].
  - exact Hplan.
  - intros _. now exists type.
  - exact Hup.
Qed.

Lemma is_deprecated_app_name (name : string) (cur : option string) :
  is_deprecated_app name cur = true -> name = "@quasar/app".
Proof.
  unfold is_deprecated_app. intros H.
  apply andb_prop in H as [H _]. apply andb_prop in H as [H _].
  now apply String.eqb_eq.
Qed.

Lemma Forall_scan_event_logs (packager : string) (logs : list string) :
  Forall (scan_event packager) (map ConsoleLog logs).
Proof. induction logs; constructor; simpl; auto. Qed.

(** One iteration keeps [scan_ok] and emits scan events only. *)
Lemma scan_package_ok (E : Env) (argv : Argv) (packager : string)
      (pkg : manifest) (type : dep_type) (name : string) (st : scan_state)
      (w w' : World E) (t : list event) (r : result scan_state) :
  In name (group_keys pkg type) ->
  scan_ok pkg st ->
  scan_package E argv packager type name st w = (w', t, r) ->
  Forall (scan_event packager) t
  /\ forall st', r = Returned st' -> scan_ok pkg st'.
Proof.
  intros Hin Hst. unfold scan_package.
  destruct (is_quasar_package name) eqn:Hq; cbn [negb].
  - destruct (is_deprecated_app name _) eqn:Hdep.
    + apply is_deprecated_app_name in Hdep. subst name.
      destruct (report_package_run E argv packager type "@quasar/app-webpack"
                  (match getPackageJson E "@quasar/app" w with
                   | Some j => Some (version j)
                   | None => None
                   end) (set_remove st) w)
        as (w1 & logs & r1 & Hrun & Hr).
      rewrite Hrun. intros H; inversion H; subst. split.
      * constructor; [|apply Forall_scan_event_logs].
        exists "@quasar/app-webpack". split; reflexivity.
      * intros st' Hst'. pose proof (scan_ok_remove _ _ _ Hst Hin) as Hrem.
        destruct (Hr _ Hst') as [->|(latest & Hl & ->)]; [exact Hrem|].
        apply scan_ok_push; auto. right. now split.
    + destruct (report_package_run E argv packager type name
                  (match getPackageJson E name w with
                   | Some j => Some (version j)
                   | None => None
                   end) st w)
        as (w1 & logs & r1 & Hrun & Hr).
      rewrite Hrun. intros H; inversion H; subst. split.
      * constructor; [|apply Forall_scan_event_logs].
        exists name. now split.
      * intros st' Hst'.
        destruct (Hr _ Hst') as [->|(latest & Hl & ->)]; [exact Hst|].
        apply scan_ok_push; auto. now left.
  - unfold ret. intros H; inversion H; subst. split; [constructor|].
    intros st' H'; inversion H'; now subst.
Qed.

Lemma scan_ok_initial (pkg : manifest) : scan_ok pkg initial_state.
Proof.
  split; [|split].
  - intros type e. destruct type; intros [].
  - discriminate.
  - split; [discriminate|]. intros [type H]. now destruct type.
Qed.

Lemma scan_keeps_ok (E : Env) (argv : Argv) (packager : string)
      (pkg : manifest) (w w' : World E) (t : list event)
      (r : result scan_state) :
  scan E argv packager pkg w = (w', t, r) ->
  Forall (scan_event packager) t
  /\ forall st, r = Returned st -> scan_ok pkg st.
Proof.
  unfold scan.
  apply (foldM_invariant (scan_group E argv packager pkg) (scan_ok pkg)
                         (scan_event packager)); [|apply scan_ok_initial].
  intros type st w0 w0' t0 r0 Hst. unfold scan_group.
  apply (foldM_invariant_in (scan_package E argv packager type) (scan_ok pkg)
                            (scan_event packager)); [|exact Hst].
  intros name s w1 w1' t1 r1 Hin Hs. now apply scan_package_ok.
Qed.

(** X8: when the scan returns, every plan entry names a Quasar package that
    the manifest declares in that group (or the successor of a declared
    [@quasar/app]) and never holds [null] as its version; the removal flag
    is only set when the manifest declares [@quasar/app]; and
    [updateAvailable] is set exactly when a plan has an entry. *)
Theorem scan_plans_well_formed (E : Env) (argv : Argv) (packager : string)
        (pkg : manifest) (w w' : World E) (t : list event) (st : scan_state) :
  scan E argv packager pkg w = (w', t, Returned st) ->
  (forall type e,
      In e (deps st type) ->
      is_quasar_package (packageName e) = true
      /\ declared pkg type (packageName e)
      /\ latestVersion e <> VNull)
  /\ (removeDeprecatedAppPkg st = true ->
      exists type, In "@quasar/app" (group_keys pkg type))
  /\ (updateAvailable st = true <-> exists type, deps st type <> []).
Proof.
  intros H. destruct (scan_keeps_ok _ _ _ _ _ _ _ _ H) as [_ Hok].
  exact (Hok st eq_refl).
Qed.

Lemma scan_plans_well_formed_witness :
  scan sample_project no_flags "npm" sample_pkg tt
  = (tt, snd (fst (scan sample_project no_flags "npm" sample_pkg tt)),
     Returned sample_plan)
  /\ (removeDeprecatedAppPkg sample_plan = true ->
      exists type, In "@quasar/app" (group_keys sample_pkg type)).
Proof.
  split; [reflexivity|].
  destruct (scan_plans_well_formed sample_project no_flags "npm" sample_pkg
              tt tt
              (snd (fst (scan sample_project no_flags "npm" sample_pkg tt)))
              sample_plan eq_refl) as (_ & H & _).
  exact H.
Defined.

(** X9: the scan asks the registry about Quasar packages only: every event
    it emits is a console line or the [info] command of the package manager
    for a name that passes the Quasar test, whether the scan returns or
    throws. *)
Theorem scan_queries_quasar_only (E : Env) (argv : Argv) (packager : string)
        (pkg : manifest) (w : World E) :
  Forall (scan_event packager) (snd (fst (scan E argv packager pkg w)))
  /\ forall cmd,
      In (ExecSync cmd) (snd (fst (scan E argv packager pkg w))) ->
      exists name,
        is_quasar_package name = true /\ cmd = info_command packager name.
Proof.
  destruct (scan E argv packager pkg w) as [[w' t] r] eqn:H.
  destruct (scan_keeps_ok _ _ _ _ _ _ _ _ H) as [Ht _]. cbn [fst snd].
  split; [exact Ht|].
  intros cmd Hin. eapply Forall_forall in Hin; [|exact Ht]. exact Hin.
Qed.

(** ** Runs that install nothing *)

Lemma scan_event_quiet (packager : string) (e : event) :
  scan_event packager e -> quiet e.
Proof. destruct e; simpl; intros H; try contradiction; split; reflexivity. Qed.

Lemma scan_quiet (E : Env) (argv : Argv) (packager : string) (pkg : manifest)
      (w : World E) :
  Forall quiet (snd (fst (scan E argv packager pkg w))).
Proof.
  destruct (scan E argv packager pkg w) as [[w' t] r] eqn:H.
  destruct (scan_keeps_ok _ _ _ _ _ _ _ _ H) as [Ht _]. cbn [fst snd].
  eapply Forall_impl; [|exact Ht]. apply scan_event_quiet.
Qed.

(** What a run emits when the scan throws. *)
Lemma upgradeQuasar_thrown (E : Env) (argv : Argv) (root : string)
      (pkg : manifest) (w w1 : World E) (t : list event) (e : exn) :
  let packager := node_packager E root in
  scan E argv packager pkg w = (w1, t, Thrown e) ->
  upgradeQuasar E argv root pkg w
  = (w1, (header packager ++ t)%list, Thrown e).
Proof.
  intros packager H. unfold upgradeQuasar, bind, console_log, logger_log.
  fold packager. now rewrite H.
Qed.

(** X10: without the install flag a run changes nothing: whatever the
    registry answers, and also when the scan throws, its trace holds no
    install, no uninstall and no deletion. *)
Theorem preview_never_mutates (E : Env) (argv : Argv) (root : string)
        (pkg : manifest) (w : World E) :
  install argv = false ->
  Forall quiet (snd (fst (upgradeQuasar E argv root pkg w))).
Proof.
  intros Hi.
  pose proof (scan_quiet E argv (node_packager E root) pkg w) as Hq.
  destruct (scan E argv (node_packager E root) pkg w) as [[w1 t] [st|e]] eqn:H;
    cbn [fst snd] in Hq.
  - rewrite (upgradeQuasar_run _ _ _ _ _ _ _ _ H).
    unfold finish. rewrite Hi.
    destruct (updateAvailable st); cbn [negb fst snd];
      (apply Forall_app; split; [apply quiet_header|]);
      (apply Forall_app; split; [exact Hq|]);
      repeat constructor.
  - rewrite (upgradeQuasar_thrown _ _ _ _ _ _ _ _ H). cbn [fst snd].
    apply Forall_app. split; [apply quiet_header|exact Hq].
Qed.

Lemma preview_never_mutates_witness :
  install no_flags = false
  /\ Forall quiet
            (snd (fst (upgradeQuasar sample_project no_flags "/proj" sample_pkg
                                     tt))).
Proof.
  split; [reflexivity|].
  apply (preview_never_mutates sample_project no_flags "/proj" sample_pkg tt).
  reflexivity.
Defined.

Lemma foldM_skip {E : Env} {A S : Type} (f : A -> S -> M E S) (l : list A)
      (s : S) (w : World E) :
  (forall a, In a l -> f a s w = (w, [], Returned s)) ->
  foldM f l s w = (w, [], Returned s).
Proof.
  induction l as [|a l IH]; intros H; [reflexivity|].
  simpl. unfold bind. rewrite (H a (or_introl eq_refl)).
  rewrite IH; [reflexivity|]. intros b Hb. apply H. now right.
Qed.

(** X11: a manifest that declares no Quasar package, or lacks one or both
    groups, is scanned without a single registry query: the run logs its
    header and the up-to-date line and returns, leaving the world as it
    was. *)
Theorem nothing_to_scan (E : Env) (argv : Argv) (root : string)
        (pkg : manifest) (w : World E) :
  (forall type name,
      In name (group_keys pkg type) -> is_quasar_package name = false) ->
  upgradeQuasar E argv root pkg w
  = (w, (header (node_packager E root) ++ [ConsoleLog up_to_date_line])%list,
     Returned tt).
Proof.
  intros Hnone.
  assert (Hgroup : forall type,
             scan_group E argv (node_packager E root) pkg type initial_state w
             = (w, [], Returned initial_state)).
  { intros type. unfold scan_group. apply foldM_skip.
    intros name Hin. unfold scan_package.
    now rewrite (Hnone type name Hin). }
  assert (Hscan : scan E argv (node_packager E root) pkg w
                  = (w, [], Returned initial_state)).
  { unfold scan. apply foldM_skip. intros type _. apply Hgroup. }
  rewrite (upgradeQuasar_run _ _ _ _ _ _ _ _ Hscan). reflexivity.
Qed.

Lemma nothing_to_scan_witness :
  upgradeQuasar sample_project install_flag "/proj" plain_pkg tt
  = (tt, (header "npm" ++ [ConsoleLog up_to_date_line])%list, Returned tt).
Proof.
  apply (nothing_to_scan sample_project install_flag "/proj" plain_pkg tt).
  intros [|] name; simpl.
  - intros [<-|[<-|[]]]; reflexivity.
  - intros [].
Defined.

(** A fold whose steps all return, keeping [I]. *)
Lemma foldM_returns {E : Env} {A S : Type} (f : A -> S -> M E S)
      (I : S -> Prop) (Q : event -> Prop) (l : list A) :
  (forall a s w,
      I s -> exists w' t s', f a s w = (w', t, Returned s')
                             /\ Forall Q t /\ I s') ->
  forall s w,
    I s -> exists w' t s', foldM f l s w = (w', t, Returned s')
                           /\ Forall Q t /\ I s'.
Proof.
  intros Hf. induction l as [|a l IH]; intros s w Hs.
  - exists w, [], s. repeat split; auto.
  - destruct (Hf a s w Hs) as (w1 & t1 & s1 & Hstep & Ht1 & Hs1).
    destruct (IH s1 w1 Hs1) as (w2 & t2 & s2 & Hrest & Ht2 & Hs2).
    exists w2, (t1 ++ t2)%list, s2. split; [|split; auto].
    + simpl. unfold bind. now rewrite Hstep, Hrest.
    + now apply Forall_app.
Qed.

Lemma getLatestVersion_exec_failed (E : Env) (argv : Argv)
      (packager name : string) (cur : option string) (w : World E) :
  snd (execSync E (info_command packager name) w) = None ->
  getLatestVersion E argv packager name cur w
  = (fst (execSync E (info_command packager name) w),
     [ExecSync (info_command packager name)], Returned VNull).
Proof.
  intros H. unfold getLatestVersion.
  destruct (execSync E (info_command packager name) w) as [w1 o].
  simpl in H. now subst o.
Qed.

(** X12: when the package manager cannot be run at all, no package is
    added to any plan and the run still returns with the up-to-date line,
    having installed and deleted nothing, even with the install flag. *)
Theorem unreachable_registry_up_to_date (E : Env) (argv : Argv)
        (root : string) (pkg : manifest) (w : World E) :
  (forall cmd w0, snd (execSync E cmd w0) = None) ->
  exists w' t,
    upgradeQuasar E argv root pkg w = (w', t, Returned tt)
    /\ In (ConsoleLog up_to_date_line) t
    /\ Forall quiet t.
Proof.
  intros Hfail. set (packager := node_packager E root).
  set (I := fun st : scan_state =>
              updateAvailable st = false).
  assert (Hreport : forall type name cur st w0,
             I st ->
             exists w' t st',
               report_package E argv packager type name cur st w0
               = (w', t, Returned st') /\ Forall quiet t /\ I st').
  { intros type name cur st w0 Hst. unfold report_package.
    rewrite (bind_returned _ _ _ _ _ _
               (getLatestVersion_exec_failed E argv packager name cur w0
                  (Hfail _ _))).
    cbn [strict_eq fst snd]. do 3 eexists. split; [reflexivity|].
    split; [repeat constructor|exact Hst]. }
  assert (Hstep : forall type name st w0,
             I st ->
             exists w' t st',
               scan_package E argv packager type name st w0
               = (w', t, Returned st') /\ Forall quiet t /\ I st').
  { intros type name st w0 Hst. unfold scan_package.
    destruct (is_quasar_package name); cbn [negb].
    - destruct (is_deprecated_app name _); apply Hreport; exact Hst.
    - exists w0, [], st. repeat split; auto. }
  assert (Hscan : exists w' t st,
             scan E argv packager pkg w = (w', t, Returned st)
             /\ Forall quiet t /\ I st).
  { unfold scan. apply (foldM_returns _ I quiet); [|reflexivity].
    intros type st w0 Hst. unfold scan_group.
    apply (foldM_returns _ I quiet); [|exact Hst].
    intros name. apply Hstep. }
  destruct Hscan as (w' & t & st & Hscan & Hq & Hst).
  rewrite (upgradeQuasar_run _ _ _ _ _ _ _ _ Hscan). fold packager.
  unfold finish. unfold I in Hst. rewrite Hst. cbn [negb console_log fst snd].
  do 2 eexists. split; [reflexivity|]. split.
  - apply in_or_app. right. apply in_or_app. right. now left.
  - apply Forall_app. split; [apply quiet_header|].
    apply Forall_app. split; [exact Hq|repeat constructor].
Qed.

Lemma unreachable_registry_up_to_date_witness :
  exists w' t,
    upgradeQuasar offline_env install_flag "/proj" sample_pkg tt
    = (w', t, Returned tt)
    /\ In (ConsoleLog up_to_date_line) t
    /\ Forall quiet t.
Proof.
  apply (unreachable_registry_up_to_date offline_env install_flag "/proj"
           sample_pkg tt).
  intros cmd w0. reflexivity.
Defined.

(** ** The installs *)

(** When a manifest lookup throws. *)
Lemma range_or_fallback_throws (pkg : manifest) (name : string) :
  (exists e, range_or_fallback pkg name = Thrown e)
  <-> pkg_dependencies pkg = None
      \/ (pkg_devDependencies pkg = None
          /\ forall ds, pkg_dependencies pkg = Some ds ->
                        truthy_entry ds name = None).
Proof.
  unfold range_or_fallback.
  destruct (pkg_dependencies pkg) as [ds|].
  - destruct (truthy_entry ds name) as [r|] eqn:Hr.
    + split; [intros [e H]; discriminate|].
      intros [H|[_ H]]; [discriminate|].
      specialize (H ds eq_refl). congruence.
    + destruct (pkg_devDependencies pkg) as [dd|].
      * split; [intros [e H]; discriminate|].
        intros [H|[H _]]; discriminate.
      * split; [|eauto]. intros _. right. split; [reflexivity|].
        intros ds' H. inversion H. now subst.
  - split; [auto|eauto].
Qed.

Lemma range_or_fallback_type_error (pkg : manifest) (name : string) (e : exn) :
  range_or_fallback pkg name = Thrown e -> e = TypeError.
Proof.
  unfold range_or_fallback.
  destruct (pkg_dependencies pkg) as [ds|]; [|congruence].
  destruct (truthy_entry ds name); [discriminate|].
  destruct (pkg_devDependencies pkg); [discriminate|congruence].
Qed.

(** The removals and the arguments of a group, when nothing fails. *)
Lemma add_deps_trace (E : Env) (root : string) (pkg : manifest)
      (l : list plan_entry) :
  pkg_dependencies pkg <> None -> pkg_devDependencies pkg <> None ->
  (forall segs w0, snd (removeSync E segs w0) = true) ->
  forall (params : list string) (w : World E),
  exists w',
    foldM (add_dep E root pkg) l params w
    = (w', map (removal root) l,
       Returned (params ++ map (pinning_arg pkg) l)%list).
Proof.
  intros Hd Hdd Hrm. induction l as [|dep l IH]; intros params w.
  - exists w. cbn [foldM map]. now rewrite app_nil_r.
  - destruct (add_dep_run E root pkg dep params w) as (r1 & Hrun & _ & Hok).
    rewrite (Hok (Hrm _ _) Hd Hdd) in Hrun.
    destruct (IH (params ++ [pinning_arg pkg dep])%list
                 (fst (removeSync E [root; "node_modules"; packageName dep] w)))
      as (w' & Hrest).
    exists w'. cbn [foldM map]. unfold bind. rewrite Hrun, Hrest.
    now rewrite <- app_assoc.
Qed.

(** X13: for a group with plan entries, when both manifest groups exist
    and the removals succeed, the installed files of every plan entry are
    removed, in plan order, then one blank line is logged and one install
    is spawned; the group returns exactly when that install does. *)
Theorem install_group_order (E : Env) (root packager : string)
        (pkg : manifest) (st : scan_state) (type : dep_type) (w : World E) :
  deps st type <> [] ->
  pkg_dependencies pkg <> None -> pkg_devDependencies pkg <> None ->
  (forall segs w0, snd (removeSync E segs w0) = true) ->
  let params := (install_params packager type
                   ++ map (pinning_arg pkg) (deps st type))%list in
  exists w1 w2 ok,
    spawn E packager params root w1 = (w2, ok)
    /\ install_group E root packager pkg st type tt w
       = (w2,
          (map (removal root) (deps st type)
             ++ [ConsoleLog ""; Spawn packager params root])%list,
          if ok then Returned tt else Thrown ExternalFailure).
Proof.
  intros Hne Hd Hdd Hrm. cbv zeta. unfold install_group.
  destruct (deps st type) as [|d l] eqn:Hdeps; [contradiction|].
  rewrite <- Hdeps in *.
  destruct (add_deps_trace E root pkg (deps st type) Hd Hdd Hrm
              (install_params packager type) w) as (w1 & Hrun).
  unfold bind. rewrite Hrun. unfold console_log, do_spawn.
  destruct (spawn E packager _ root w1) as [w2 ok] eqn:Hs.
  exists w1, w2, ok. split; [exact Hs|]. now destruct ok.
Qed.

Lemma install_group_order_witness :
  install_group sample_project "/proj" "npm" sample_pkg sample_plan
                devDependencies tt tt
  = (tt,
     [RemoveSync ["/proj"; "node_modules"; "@quasar/app-webpack"];
      ConsoleLog "";
      Spawn "npm" ["install"; "--save--dev"; "@quasar/app-webpack@^3.2.0"]
            "/proj"],
     Returned tt).
Proof.
  destruct (install_group_order sample_project "/proj" "npm" sample_pkg
              sample_plan devDependencies tt)
    as (w1 & w2 & ok & Hs & Hrun); try discriminate.
  - intros segs w0. reflexivity.
  - inversion Hs; subst. destruct w2. exact Hrun.
Defined.

(** X14: the manifest lookup of the install phase throws a TypeError when
    [dependencies] is absent, and when [devDependencies] is absent and
    [dependencies] has no entry for the package.  In that case the group
    stops right after removing the installed files of its first plan entry:
    no install is spawned. *)
Theorem install_without_group (E : Env) (root packager : string)
        (pkg : manifest) (st : scan_state) (type : dep_type) (w : World E)
        (d : plan_entry) (l : list plan_entry) :
  deps st type = d :: l ->
  pkg_dependencies pkg = None
  \/ (pkg_devDependencies pkg = None
      /\ forall ds, pkg_dependencies pkg = Some ds ->
                    truthy_entry ds (packageName d) = None) ->
  range_or_fallback pkg (packageName d) = Thrown TypeError
  /\ exists w' e,
      install_group E root packager pkg st type tt w
      = (w', [removal root d], Thrown e)
      /\ (snd (removeSync E [root; "node_modules"; packageName d] w) = true ->
          e = TypeError).
Proof.
  intros Hdeps Hmissing.
  apply range_or_fallback_throws in Hmissing as [e He].
  pose proof (range_or_fallback_type_error _ _ _ He). subst e.
  split; [exact He|].
  unfold install_group. rewrite Hdeps. cbn [foldM].
  unfold bind at 1. unfold bind at 1.
  unfold add_dep, bind, do_removeSync, lift. rewrite He.
  destruct (removeSync E [root; "node_modules"; packageName d] w)
    as [w1 [|]]; cbn [fst snd]; do 2 eexists; split; try reflexivity.
  discriminate.
Qed.

Lemma install_without_group_witness :
  install_group sample_project "/proj" "npm" dev_only_pkg sample_plan
                devDependencies tt tt
  = (tt, [RemoveSync ["/proj"; "node_modules"; "@quasar/app-webpack"]],
     Thrown TypeError).
Proof.
  destruct (install_without_group sample_project "/proj" "npm" dev_only_pkg
              sample_plan devDependencies tt
              {| packageName := "@quasar/app-webpack";
                 latestVersion := VStr "3.2.0" |} [] eq_refl
              (or_introl eq_refl))
    as (_ & w' & e & Hrun & He).
  rewrite (He eq_refl) in Hrun. destruct w'. exact Hrun.
Defined.

Lemma emits_bind {E : Env} {A B : Type} (Q : event -> Prop) (m : M E A)
      (f : A -> M E B) :
  emits Q m -> (forall a, emits Q (f a)) -> emits Q (bind m f).
Proof.
  intros Hm Hf w. unfold bind. specialize (Hm w).
  destruct (m w) as [[w1 t1] [a|e]]; cbn [fst snd] in *.
  - specialize (Hf a w1). destruct (f a w1) as [[w2 t2] r]. cbn [fst snd] in *.
    now apply Forall_app.
  - exact Hm.
Qed.

Lemma emits_foldM {E : Env} {A S : Type} (Q : event -> Prop)
      (f : A -> S -> M E S) (l : list A) :
  (forall a s, emits Q (f a s)) -> forall s, emits Q (foldM f l s).
Proof.
  intros Hf. induction l as [|a l IH]; intros s.
  - intros w. constructor.
  - cbn [foldM]. apply emits_bind; auto.
Qed.

Lemma emits_add_dep (E : Env) (root : string) (pkg : manifest)
      (dep : plan_entry) (params : list string) :
  emits install_event (add_dep E root pkg dep params).
Proof.
  intros w. destruct (add_dep_run E root pkg dep params w) as (r & Hrun & _).
  rewrite Hrun. repeat constructor.
Qed.

Lemma emits_spawn (E : Env) (cmd : string) (params : list string)
      (cwd : string) :
  emits install_event (@do_spawn E cmd params cwd).
Proof.
  intros w. unfold do_spawn.
  destruct (spawn E cmd params cwd w) as [w1 [|]]; repeat constructor.
Qed.

Lemma emits_removeSync (E : Env) (segments : list string) :
  emits install_event (@do_removeSync E segments).
Proof.
  intros w. unfold do_removeSync.
  destruct (removeSync E segments w) as [w1 [|]]; repeat constructor.
Qed.

Lemma emits_console_log (E : Env) (line : string) :
  emits install_event (@console_log E line).
Proof. intros w. repeat constructor. Qed.

Lemma emits_install_group (E : Env) (root packager : string) (pkg : manifest)
      (st : scan_state) (type : dep_type) (u : unit) :
  emits install_event (install_group E root packager pkg st type u).
Proof.
  unfold install_group. destruct (deps st type) as [|d l].
  - intros w. constructor.
  - apply emits_bind.
    + apply emits_foldM. intros dep params. apply emits_add_dep.
    + intros params. apply emits_bind; [apply emits_console_log|].
      intros _. apply emits_spawn.
Qed.

(** A step that does not use the logger keeps [logs_on_return]. *)
Lemma logs_on_return_bind {E : Env} {A : Type} (line : string) (m : M E A)
      (k : M E unit) :
  emits install_event m -> logs_on_return line k ->
  logs_on_return line (bind m (fun _ => k)).
Proof.
  intros Hm Hk w. unfold bind. specialize (Hm w).
  destruct (m w) as [[w1 t1] [a|e]]; cbn [fst snd] in *.
  - specialize (Hk w1). destruct (k w1) as [[w2 t2] r]. cbn [fst snd] in *.
    rewrite <- Hk. split.
    + intros H. apply in_app_or in H as [H|H]; [|exact H].
      eapply Forall_forall in H; [|exact Hm]. contradiction.
    + intros H. apply in_or_app. now right.
  - split; [|discriminate].
    intros H. eapply Forall_forall in H; [|exact Hm]. contradiction.
Qed.

(** X15: a run that installs logs [Successfully upgraded Quasar
    packages.] exactly when it returns: after a removal or a spawn that did
    not return, or a TypeError, the success line is never logged. *)
Theorem success_logged_iff_returned (E : Env) (argv : Argv)
        (root packager : string) (pkg : manifest) (st : scan_state)
        (w : World E) :
  install argv = true ->
  updateAvailable st = true ->
  (In (LoggerLog success_line)
      (snd (fst (finish E argv root packager pkg st w)))
   <-> snd (finish E argv root packager pkg st w) = Returned tt).
Proof.
  intros Hi Hu. unfold finish. rewrite Hi, Hu. cbn [negb].
  revert w. fold (@logs_on_return E success_line).
  apply logs_on_return_bind.
  - destruct (removeDeprecatedAppPkg st).
    + apply emits_bind; [apply emits_removeSync|]. intros _.
      apply emits_bind; [apply emits_console_log|]. intros _.
      apply emits_spawn.
    + intros w. constructor.
  - apply logs_on_return_bind.
    + apply emits_foldM. intros type u. apply emits_install_group.
    + apply logs_on_return_bind; [apply emits_console_log|].
      intros w. cbn. split; [reflexivity|]. intros _. now left.
Qed.

Lemma success_logged_iff_returned_witness :
  In (LoggerLog success_line)
     (snd (fst (finish sample_project install_flag "/proj" "npm" sample_pkg
                       sample_plan tt)))
  <-> snd (finish sample_project install_flag "/proj" "npm" sample_pkg
                  sample_plan tt) = Returned tt.
Proof.
  apply (success_logged_iff_returned sample_project install_flag "/proj" "npm"
           sample_pkg sample_plan tt); reflexivity.
Defined.

(** One group, when nothing fails. *)
Lemma install_group_run_all (E : Env) (root packager : string)
      (pkg : manifest) (st : scan_state) (type : dep_type) (w : World E) :
  deps st type <> [] ->
  pkg_dependencies pkg <> None -> pkg_devDependencies pkg <> None ->
  (forall segs w0, snd (removeSync E segs w0) = true) ->
  (forall cmd params cwd w0, snd (spawn E cmd params cwd w0) = true) ->
  exists w',
    install_group E root packager pkg st type tt w
    = (w',
       (map (removal root) (deps st type)
          ++ [ConsoleLog "";
              Spawn packager
                    (install_params packager type
                       ++ map (pinning_arg pkg) (deps st type)) root])%list,
       Returned tt).
Proof.
  intros Hne Hd Hdd Hrm Hsp. unfold install_group.
  destruct (deps st type) as [|d l] eqn:Hdeps; [contradiction|].
  rewrite <- Hdeps in *.
  destruct (add_deps_trace E root pkg (deps st type) Hd Hdd Hrm
              (install_params packager type) w) as (w1 & Hrun).
  unfold bind. rewrite Hrun. unfold console_log, do_spawn.
  pose proof (Hsp packager
                  (install_params packager type
                     ++ map (pinning_arg pkg) (deps st type))%list root w1)
    as Hok.
  destruct (spawn E packager _ root w1) as [w2 ok].
  simpl in Hok. subst ok. now exists w2.
Qed.

(** X16: when both manifest groups exist and every removal and spawn
    succeeds, a run that installs performs, in this order: the removal and
    uninstall of [@quasar/app] if flagged, the removals and the install of
    [dependencies], those of [devDependencies], and the success line; a
    group without plan entries is skipped. *)
Theorem install_run_order (E : Env) (argv : Argv) (root packager : string)
        (pkg : manifest) (st : scan_state) (w : World E) :
  install argv = true ->
  updateAvailable st = true ->
  pkg_dependencies pkg <> None -> pkg_devDependencies pkg <> None ->
  (forall segs w0, snd (removeSync E segs w0) = true) ->
  (forall cmd params cwd w0, snd (spawn E cmd params cwd w0) = true) ->
  exists w',
    finish E argv root packager pkg st w
    = (w',
       (legacy_events root packager st
          ++ group_events root packager pkg st dependencies
          ++ group_events root packager pkg st devDependencies
          ++ [ConsoleLog ""; LoggerLog success_line])%list,
       Returned tt).
Proof.
  intros Hi Hu Hd Hdd Hrm Hsp.
  assert (Hgroup : forall type w0,
             exists w1,
               install_group E root packager pkg st type tt w0
               = (w1, group_events root packager pkg st type, Returned tt)).
  { intros type w0. unfold group_events.
    destruct (deps st type) as [|d l] eqn:Hdeps.
    - exists w0. unfold install_group. now rewrite Hdeps.
    - assert (Hne : deps st type <> []) by (rewrite Hdeps; discriminate).
      destruct (install_group_run_all E root packager pkg st type w0)
        as (w1 & Hrun); auto.
      exists w1. now rewrite Hdeps in Hrun. }
  assert (Hlegacy : forall w0,
             exists w1,
               (if removeDeprecatedAppPkg st
                then @do_removeSync E (legacy_path root) ;;
                     console_log "" ;;
                     do_spawn packager (uninstall_params packager) root
                else ret tt) w0
               = (w1, legacy_events root packager st, Returned tt)).
  { intros w0. unfold legacy_events.
    destruct (removeDeprecatedAppPkg st); [|now exists w0].
    unfold bind, do_removeSync, console_log, do_spawn.
    pose proof (Hrm (legacy_path root) w0) as H1.
    destruct (removeSync E (legacy_path root) w0) as [w1 b1].
    simpl in H1. subst b1.
    pose proof (Hsp packager (uninstall_params packager) root w1) as H2.
    destruct (spawn E packager (uninstall_params packager) root w1)
      as [w2 b2].
    simpl in H2. subst b2. now exists w2. }
  unfold finish. rewrite Hi, Hu. cbn [negb]. fold (legacy_path root).
  destruct (Hlegacy w) as (w1 & H1).
  destruct (Hgroup dependencies w1) as (w2 & H2).
  destruct (Hgroup devDependencies w2) as (w3 & H3).
  assert (Hfold : foldM (install_group E root packager pkg st)
                        [dependencies; devDependencies] tt w1
                  = (w3,
                     (group_events root packager pkg st dependencies
                        ++ group_events root packager pkg st devDependencies)%list,
                     Returned tt)).
  { cbn [foldM]. unfold bind, ret. rewrite H2, H3. now rewrite app_nil_r. }
  exists w3.
  rewrite (bind_returned _ _ _ _ _ _ H1), (bind_returned _ _ _ _ _ _ Hfold).
  cbn [fst snd bind console_log logger_log]. unfold success_line.
  now rewrite <- !app_assoc.
Qed.

Lemma install_run_order_witness :
  finish sample_project install_flag "/proj" "npm" sample_pkg sample_plan tt
  = (tt,
     [RemoveSync ["/proj"; "node_modules/@quasar/app"];
      ConsoleLog "";
      Spawn "npm" ["uninstall"; "--save--dev"; "@quasar/app"] "/proj";
      RemoveSync ["/proj"; "node_modules"; "quasar"];
      ConsoleLog "";
      Spawn "npm" ["install"; "--save"; "quasar@^2.1.0"] "/proj";
      RemoveSync ["/proj"; "node_modules"; "@quasar/app-webpack"];
      ConsoleLog "";
      Spawn "npm" ["install"; "--save--dev"; "@quasar/app-webpack@^3.2.0"]
            "/proj";
      ConsoleLog ""; LoggerLog success_line],
     Returned tt).
Proof.
  assert (Hd : pkg_dependencies sample_pkg <> None) by discriminate.
  assert (Hdd : pkg_devDependencies sample_pkg <> None) by discriminate.
  destruct (install_run_order sample_project install_flag "/proj" "npm"
              sample_pkg sample_plan tt eq_refl eq_refl Hd Hdd
              (fun _ _ => eq_refl) (fun _ _ _ _ => eq_refl)) as (w' & Hrun).
  destruct w'. exact Hrun.
Defined.

(** X17: when the scan throws, the run throws the same exception and has
    installed, uninstalled and deleted nothing, also with the install
    flag: one package that makes [getLatestVersion] throw stops the
    upgrade of all of them. *)
Theorem failed_scan_installs_nothing (E : Env) (argv : Argv) (root : string)
        (pkg : manifest) (w : World E) (e : exn) :
  snd (scan E argv (node_packager E root) pkg w) = Thrown e ->
  snd (upgradeQuasar E argv root pkg w) = Thrown e
  /\ Forall quiet (snd (fst (upgradeQuasar E argv root pkg w))).
Proof.
  intros Hthrown.
  pose proof (scan_quiet E argv (node_packager E root) pkg w) as Hq.
  destruct (scan E argv (node_packager E root) pkg w) as [[w1 t] r] eqn:H.
  cbn [fst snd] in *. subst r.
  rewrite (upgradeQuasar_thrown _ _ _ _ _ _ _ _ H). cbn [fst snd].
  split; [reflexivity|].
  apply Forall_app. split; [apply quiet_header|exact Hq].
Qed.

Lemma failed_scan_installs_nothing_witness :
  snd (scan yarn_project install_flag "npm" broken_pkg tt) = Thrown TypeError
  /\ snd (upgradeQuasar yarn_project install_flag "/proj" broken_pkg tt)
     = Thrown TypeError
  /\ Forall quiet
            (snd (fst (upgradeQuasar yarn_project install_flag "/proj"
                                     broken_pkg tt))).
Proof.
  split; [reflexivity|].
  apply (failed_scan_installs_nothing yarn_project install_flag "/proj"
           broken_pkg tt TypeError).
  reflexivity.
Defined.

(** ** The extension resolver, again *)

(** X18: what [resolveExtension] returns exists and is the path it was
    given followed by one of the five extensions, and resolving it again
    returns it unchanged. *)
Theorem resolveExtension_idempotent (existsSync : string -> bool)
        (p e : string) :
  resolveExtension existsSync p = Some e ->
  existsSync e = true
  /\ (exists ext, In ext extensions /\ e = p ++ ext)
  /\ resolveExtension existsSync e = Some e.
Proof.
  rewrite !resolveExtension_find. intros H.
  apply find_some in H as [Hin He]. split; [exact He|]. split.
  - unfold candidates in Hin. simpl in Hin.
    destruct Hin as [<-|[<-|[<-|[<-|[<-|[]]]]]].
    + exists "". split; [now left|]. now rewrite append_nil_r.
    + exists ".js". split; [right; now left|reflexivity].
    + exists ".ts". split; [do 2 right; now left|reflexivity].
    + exists ".jsx". split; [do 3 right; now left|reflexivity].
    + exists ".tsx". split; [do 4 right; now left|reflexivity].
  - unfold candidates. simpl. now rewrite He.
Qed.

Lemma resolveExtension_idempotent_witness :
  resolveExtension sample_fs "src/App" = Some "src/App"
  /\ sample_fs "src/App" = true
  /\ exists ext, In ext extensions /\ "src/App" = "src/App" ++ ext.
Proof.
  split; [reflexivity|].
  destruct (resolveExtension_idempotent sample_fs "src/App" "src/App" eq_refl)
    as (Hex & Hext & _).
  split; [exact Hex|exact Hext].
Defined.

(** ** [versionRegex] *)

(** X19: [versionRegex] matches exactly the strings that start with three
    runs of digits separated by dots, whatever follows; it captures the
    first run as the major component and, after an optional dash, the tag
    alpha, beta or rc when one comes next.  A leading [v] prevents the
    match; a fourth component does not. *)
Theorem versionRegex_reads (s : string) :
  (js_match s versionRegex <> None
   <-> exists suffix, version_form None s suffix)
  /\ (forall a b c suffix,
         split_version s = Some (a, b, c, suffix) ->
         exists m,
           js_match s versionRegex = Some m
           /\ get_cap 1 m = Some a
           /\ get_cap 2 m = tag_of (skip_dash suffix))
  /\ js_match "v1.2.3" versionRegex = None
  /\ js_match "1.2.3.4" versionRegex = Some [(1, "1")].
Proof.
  split; [|split; [|split; reflexivity]].
  - rewrite versionRegex_match, <- accepts_prefix_iff. unfold accepts.
    destruct (split_version s) as [[[[a b] c] r]|].
    + split; [reflexivity|]. intros _.
      destruct (tag_of (skip_dash r)); discriminate.
    + split; [intros H; now elim H|discriminate].
  - intros a b c suffix Hs. rewrite versionRegex_match, Hs.
    destruct (tag_of (skip_dash suffix)) as [t|]; eexists; repeat split.
Qed.

Lemma versionRegex_reads_witness :
  split_version "2.0.0-rc.1" = Some ("2", "0", "0", "-rc.1")
  /\ exists m,
      js_match "2.0.0-rc.1" versionRegex = Some m
      /\ get_cap 1 m = Some "2"
      /\ get_cap 2 m = tag_of (skip_dash "-rc.1").
Proof.
  split; [reflexivity|].
  destruct (versionRegex_reads "2.0.0-rc.1") as (_ & H & _).
  apply (H "2" "0" "0" "-rc.1"). reflexivity.
Defined.

(** ** No qualifying candidate *)

Lemma last_strs_none (l : list string) (f : string -> bool) :
  (forall v, In v l -> f v = false) ->
  last (map VStr (filter f l)) VUndefined = VUndefined.
Proof.
  intros H. induction l as [|x l IH]; [reflexivity|].
  simpl. rewrite (H x (or_introl eq_refl)). apply IH.
  intros v Hv. apply H. now right.
Qed.

(** X20: when no candidate qualifies for an installed package,
    [selectLatest] returns [undefined]; [undefined] is not [null], so the
    report puts the package in the plan with that version, logs it as the
    update, and the install argument built from the entry ends in
    [undefined]. *)
Theorem unqualified_candidates_planned (E : Env) (argv : Argv)
        (packager : string) (type : dep_type) (name : string)
        (cur : option string) (st : scan_state) (w w1 : World E)
        (t : list event) :
  getLatestVersion E argv packager name cur w = (w1, t, Returned VUndefined) ->
  let entry := {| packageName := name; latestVersion := VUndefined |} in
  let current := match cur with None => red E "Missing!" | Some v => v end in
  report_package E argv packager type name cur st w
  = (w1, (t ++ [ConsoleLog (update_line E name current VUndefined)])%list,
     Returned (push st type entry))
  /\ install_arg false entry = name ++ "@^undefined"
  /\ install_arg true entry = name ++ "@undefined"
  /\ (forall c caps0 l,
         js_match c versionRegex = Some caps0 ->
         (forall v, In v l ->
                    regex_test (candidateRegex argv (get_cap 1 caps0)
                                               (get_cap 2 caps0)) v = false) ->
         selectLatest E argv (strs l) (Some c) = Returned VUndefined).
Proof.
  intros Hg entry current. split; [|split; [|split]]; try reflexivity.
  - unfold report_package. rewrite (bind_returned _ _ _ _ _ _ Hg).
    cbn [strict_eq].
    assert (Hne : strict_eq (value_of_version cur) VUndefined = false)
      by now destruct cur.
    rewrite Hne. reflexivity.
  - intros c caps0 l Hm Hnone.
    rewrite (selectLatest_strs _ _ _ _ _ Hm). f_equal.
    now apply last_strs_none.
Qed.

Lemma unqualified_candidates_planned_witness :
  getLatestVersion sample_project no_flags "npm" "quasar" (Some "5.0.0") tt
  = (tt, [ExecSync "npm info quasar versions --json"], Returned VUndefined)
  /\ report_package sample_project no_flags "npm" dependencies "quasar"
                    (Some "5.0.0") initial_state tt
     = (tt,
        [ExecSync "npm info quasar versions --json";
         ConsoleLog (update_line sample_project "quasar" "5.0.0" VUndefined)],
        Returned (push initial_state dependencies
                       {| packageName := "quasar";
                          latestVersion := VUndefined |})).
Proof.
  split; [reflexivity|].
  destruct (unqualified_candidates_planned sample_project no_flags "npm"
              dependencies "quasar" (Some "5.0.0") initial_state tt tt
              [ExecSync "npm info quasar versions --json"] eq_refl)
    as [H _].
  exact H.
Defined.
